(** * video-tools/video.py: concatenation of video files

    A shallow embedding of [video.py] and the properties of its pipeline:
    argument checks, file checks, probing of the first input, negotiation of
    the output parameters, the frame transfer loop with its status and preview
    side effects, and the final summary.

    Conventions of the embedding.
    - Python [float] values (frame rates, clock readings) are exact rationals
      [Q]; the properties below only compare them and name the quotient that
      is formed, none depends on rounding. Python [int] is [Z].
    - A Python value that may be [None] is an [option].
    - Everything the program does to the outside (printing, opening and
      closing readers and the writer, appending a frame, drawing a preview)
      is an [event]; a computation returns the events it performed, in order.
    - An uncaught exception is a result [Exc e]; the events performed before
      it are kept.
    Line numbers are those of [video.py]. *)

From Stdlib Require Import List String Ascii ZArith QArith Bool Lia.
Import ListNotations.
Local Open Scope string_scope.
Local Open Scope list_scope.
Local Open Scope Z_scope.

(** ** Python exceptions raised by the program or its libraries *)

Inductive exn :=
| AssertionError
| IndexError
| KeyError (key : string)
| TypeError
| ZeroDivisionError
| OSError
| SourceOpenError
| SinkOpenError
| DecodeError
| EncodeError
| SystemExit (code : Z).

(** ** The regular expression of line 124

    The fragment of Python's [re] that [r"^[0-9A-Za-z]+"] needs: an optional
    [^] anchor, then a sequence of items, each a character class matched once
    or one-or-more times (greedy, with backtracking). *)

Module Re.

(** A character class is a list of inclusive ranges, as in [[0-9A-Za-z]]. *)
Definition charclass := list (ascii * ascii).

Definition in_range (r : ascii * ascii) (c : ascii) : bool :=
  (N_of_ascii (fst r) <=? N_of_ascii c)%N && (N_of_ascii c <=? N_of_ascii (snd r))%N.

Definition in_class (cls : charclass) (c : ascii) : bool :=
  existsb (fun r => in_range r c) cls.

Inductive item :=
| Once (cls : charclass)
| OneOrMore (cls : charclass).

Record pattern := { anchored : bool; items : list item }.

(** [cls+] followed by the continuation [k]: at least one character of the
    class; as many as possible are tried first, fewer when [k] fails. *)
Fixpoint plus_greedy (cls : charclass) (k : string -> option string)
         (s : string) : option string :=
  match s with
  | String c s' =>
      if in_class cls c then
        match plus_greedy cls k s' with
        | Some m => Some (String c m)
        | None => option_map (String c) (k s')
        end
      else None
  | EmptyString => None
  end.

(** The text matched by the items at the beginning of [s]. *)
Fixpoint match_here (its : list item) (s : string) : option string :=
  match its with
  | [] => Some EmptyString
  | Once cls :: its' =>
      match s with
      | String c s' =>
          if in_class cls c then option_map (String c) (match_here its' s')
          else None
      | EmptyString => None
      end
  | OneOrMore cls :: its' => plus_greedy cls (match_here its') s
  end.

(** Scan for the leftmost start position, for a pattern without anchor. *)
Fixpoint scan (its : list item) (s : string) : option string :=
  match match_here its s with
  | Some m => Some m
  | None =>
      match s with
      | String _ s' => scan its s'
      | EmptyString => None
      end
  end.

(** [re.search(p, s)]: group 0 of the leftmost match, or [None]. Without
    [re.MULTILINE] an anchored pattern matches at position 0 only. *)
Definition search (p : pattern) (s : string) : option string :=
  if anchored p then match_here (items p) s else scan (items p) s.

End Re.

(** [r"^[0-9A-Za-z]+"] *)
Definition alnum_class : Re.charclass :=
  [("0", "9"); ("A", "Z"); ("a", "z")]%char.

Definition pix_fmt_pattern : Re.pattern :=
  {| Re.anchored := true; Re.items := [Re.OneOrMore alnum_class] |}.

(** ** The words of the specification about the pixel-format token *)

Definition is_alnum (c : ascii) : bool :=
  let n := N_of_ascii c in
  ((48 <=? n) && (n <=? 57) || (65 <=? n) && (n <=? 90) || (97 <=? n) && (n <=? 122))%N.

(** The leading maximal run of ASCII alphanumeric characters. *)
Fixpoint leading_alnum_run (s : string) : string :=
  match s with
  | String c s' => if is_alnum c then String c (leading_alnum_run s') else EmptyString
  | EmptyString => EmptyString
  end.

Definition begins_alnum (s : string) : bool :=
  match s with
  | String c _ => is_alnum c
  | EmptyString => false
  end.

(** ** Data model *)

(** A decoded raster image: rows of pixel samples. The program never looks
    inside a frame. *)
Definition frame : Type := list (list N).

(** The metadata dictionary of a reader; a missing key is [None]. *)
Record metadata := {
  md_size : option (Z * Z);
  md_fps : option Q;
  md_pix_fmt : option string;
  md_codec : option string
}.

(** What the decode layer makes of one input file: its metadata, the frames
    it yields in decode order, and whether iteration ends with a decode error
    instead of the end of the stream. *)
Record video := {
  v_meta : metadata;
  v_frames : list frame;
  v_truncated : bool
}.

(** The environment of one run: the file system as [pathlib] and [os.access]
    answer, the decode and encode layers of [imageio], and the readings of
    [time.perf_counter], one per call. [stat_fails p] says that [os.stat] on
    [p] fails with an error that [pathlib] lets through (a name that is too
    long, a directory that may not be searched): [Path.is_file] and
    [Path.exists] then raise [OSError] instead of answering; [os.access]
    answers [False] and never raises. [is_file p] and [path_exists p] are
    the answers where [stat] does not fail that way. *)
Record world := {
  stat_fails : string -> bool;
  is_file : string -> bool;
  access_r : string -> bool;
  path_exists : string -> bool;
  parent : string -> string;
  access_w : string -> bool;
  get_reader_of : string -> option video;
  writer_opens : string -> bool;
  append_ok : frame -> bool;
  clock : nat -> Q
}.

(** The namespace returned by [parser.parse_args()]. *)
Module Args.
Record t := {
  quiet : bool;
  inputs : list string;
  output : string;
  overwrite : bool;
  framerate : option Q;
  status : option Z;
  preview : option Z
}.
End Args.

(** What [parser.parse_args()] of line 54 does. It returns a namespace; or,
    on [-h], it prints the help on the standard output and exits with status
    0; or it rejects the command line, writes its usage message to the error
    stream and exits with status 2. [ArgumentError] is the exception that
    lines 55-57 catch; a parser built as in line 44 never lets it out. *)
Inductive parsed :=
| Parsed (a : Args.t)
| ArgumentError (err : string)
| Help (text : list string)
| Rejected (message : string).

(** The module globals after [parse_arguments] has assigned them. *)
Record globals := {
  _quiet : bool;
  _input_files : list string;
  _output_file : string;
  _overwrite : bool;
  _framerate : option Q;
  _status : option Z;
  _preview : option Z
}.

(** Lines 59-65: the assignments of [parse_arguments]. *)
Definition globals_of (args : Args.t) : globals :=
  {| _quiet := Args.quiet args;
     _input_files := Args.inputs args;
     _output_file := Args.output args;
     _overwrite := Args.overwrite args;
     _framerate := Args.framerate args;
     _status := Args.status args;
     _preview := Args.preview args |}.

(** The local variables [size], [framerate], [pixelformat] and [codec] of
    [process] once the first input has been probed. *)
Record parameters := {
  mp_size : Z * Z;
  mp_framerate : Q;
  mp_pixelformat : string;
  mp_codec : string
}.

(** The local variables of [process] that the loop updates. *)
Record run_state := {
  total_image_count : Z;
  start_time : Q;
  last_status_time : Q
}.

Definition VERSION : string := "1.0.0-dev".
Definition OUTPUT_QUALITY : Z := 10.

(** What [print] is given, before formatting. *)
Inductive line :=
| LText (s : string)
| LVersion (v : string)
| LBlank
| LInputFiles
| LInputFile (p : string)
| LOutputFile (p : string)
| LSize (width height : Z)
| LFramerate (fps : Q)
| LPixelFormat (pf : string)
| LCodec (c : string)
| LQuality (q : Z)
| LReading (p : string)
| LStatus (duration : Q) (images_processed : Z) (video_duration_processed : Q)
| LDone
| LTotalDuration (t : Q)
| LTotalCount (n : Z)
| LRate (fps : Q).

Inductive complaint :=
| Usage (message : string)
| InputMissing (p : string)
| InputUnreadable (p : string)
| OutputExists (p : string)
| OutputNotAFile (p : string)
| OutputDirNotWritable (dir : string).

Inductive event :=
| Stdout (l : line)
| Stderr (c : complaint)
| OpenReader (p : string)
| CloseReader (p : string)
| OpenWriter (p : string) (fps : Q) (quality : Z) (codec pixelformat : string)
| AppendData (f : frame)
| CloseWriter (p : string)
| PreviewFigure
| Imshow (f : frame)
| Suptitle (index : Z) (time : Q)
| Pause.

(** ** The monad of the program: events, clock calls, exceptions *)

Inductive result (A : Type) :=
| Ret (a : A)
| Exc (e : exn).
Arguments Ret {A} a.
Arguments Exc {A} e.

(** A computation starts after [n] calls of the clock and returns the events
    it performed, the number of clock calls after it, and its result. *)
Definition M (A : Type) : Type := nat -> list event * nat * result A.

Definition ret {A} (a : A) : M A := fun n => ([], n, Ret a).

Definition bind {A B} (m : M A) (k : A -> M B) : M B :=
  fun n =>
    let '(t1, n1, r) := m n in
    match r with
    | Ret a => let '(t2, n2, r2) := k a n1 in (t1 ++ t2, n2, r2)
    | Exc e => (t1, n1, Exc e)
    end.

Definition raise {A} (e : exn) : M A := fun n => ([], n, Exc e).

Definition emit (e : event) : M unit := fun n => ([e], n, Ret tt).

Declare Scope monad_scope.
Delimit Scope monad_scope with monad.
Notation "x <- c1 ;; c2" := (bind c1 (fun x => c2))
  (at level 61, c1 at next level, right associativity) : monad_scope.
Notation "c1 ;; c2" := (bind c1 (fun _ => c2))
  (at level 61, right associativity) : monad_scope.
Local Open Scope monad_scope.

(** [for x in xs: s = body(x, s)] *)
Fixpoint for_each {A S : Type} (xs : list A) (body : A -> S -> M S) (s : S) : M S :=
  match xs with
  | [] => ret s
  | x :: xs' => s' <- body x s ;; for_each xs' body s'
  end.

Definition assert (b : bool) : M unit :=
  if b then ret tt else raise AssertionError.

Definition sys_exit {A} (code : Z) : M A := raise (SystemExit code).

(** ** Python operators *)

(** Truth value of an optional [float] and of an optional [int]: [None] and
    zero are false. *)
Definition truthy_float (o : option Q) : bool :=
  match o with
  | Some q => negb (Qeq_bool q 0)
  | None => false
  end.

Definition truthy_int (o : option Z) : bool :=
  match o with
  | Some z => negb (z =? 0)
  | None => false
  end.

Definition Qltb (a b : Q) : bool := negb (Qle_bool b a).

(** [a / b] on floats. *)
Definition truediv (a b : Q) : M Q :=
  if Qeq_bool b 0 then raise ZeroDivisionError else ret (a / b)%Q.

(** [d[key]] *)
Definition getitem {A} (key : string) (o : option A) : M A :=
  match o with
  | Some a => ret a
  | None => raise (KeyError key)
  end.

(** [m[0]] on the result of [re.search]: [None] is not subscriptable. *)
Definition group0 (m : option string) : M string :=
  match m with
  | Some s => ret s
  | None => raise TypeError
  end.

(** [xs[0]] *)
Definition first {A} (xs : list A) : M A :=
  match xs with
  | x :: _ => ret x
  | [] => raise IndexError
  end.

(** The exit status of the interpreter: 0 after a normal return, the code of
    [sys.exit], 1 after any other uncaught exception. *)
Definition exit_code {A} (r : result A) : Z :=
  match r with
  | Ret _ => 0
  | Exc (SystemExit c) => c
  | Exc _ => 1
  end.

(** ** The program *)

Section Program.

Variable w : world.

Definition perf_counter : M Q := fun n => ([], S n, Ret (clock w n)).

Definition get_reader (p : string) : M video :=
  match get_reader_of w p with
  | Some v => emit (OpenReader p) ;; ret v
  | None => raise SourceOpenError
  end.

Definition reader_close (p : string) : M unit := emit (CloseReader p).

Definition get_writer (p : string) (fps : Q) (quality : Z)
           (codec pixelformat : string) : M unit :=
  if writer_opens w p then emit (OpenWriter p fps quality codec pixelformat)
  else raise SinkOpenError.

Definition append_data (f : frame) : M unit :=
  if append_ok w f then emit (AppendData f) else raise EncodeError.

Definition writer_close (p : string) : M unit := emit (CloseWriter p).

(** [for frame in reader]: the frames in decode order, then the end of the
    stream or a decode error. *)
Definition for_frames {S : Type} (v : video) (body : frame -> S -> M S) (s : S) : M S :=
  s' <- for_each (v_frames v) body s ;;
  if v_truncated v then raise DecodeError else ret s'.

Definition iprint (g : globals) (l : line) : M unit :=
  if _quiet g then ret tt else emit (Stdout l).

Definition eprint (c : complaint) : M unit := emit (Stderr c).

(** [Path(p).is_file()] and [Path(p).exists()]. *)
Definition Path_is_file (p : string) : M bool :=
  if stat_fails w p then raise OSError else ret (is_file w p).

Definition Path_exists (p : string) : M bool :=
  if stat_fails w p then raise OSError else ret (path_exists w p).

(** [parse_arguments]: [None] stands for the return value [False]. The
    assertions [is not None] of lines 67 and 69 hold by the types of
    [inputs] and [output]; there is no assertion about [_status]. The
    [SystemExit] of [argparse] itself passes through lines 53-57. *)
Definition parse_arguments (p : parsed) : M (option globals) :=
  match p with
  | ArgumentError err => emit (Stdout (LText err)) ;; ret None
  | Help text =>
      for_each text (fun l (_ : unit) => emit (Stdout (LText l))) tt ;;
      sys_exit 0
  | Rejected message => emit (Stderr (Usage message)) ;; sys_exit 2
  | Parsed args =>
      let g := globals_of args in
      assert (0 <? Z.of_nat (List.length (_input_files g))) ;;
      (match _framerate g with
       | Some f => if truthy_float (Some f) then assert (Qltb 0 f) else ret tt
       | None => ret tt
       end) ;;
      (match _preview g with
       | Some n => if truthy_int (Some n) then assert (0 <? n) else ret tt
       | None => ret tt
       end) ;;
      ret (Some g)
  end.

(** The loop of lines 84-92; [false] is the early [return False]. *)
Fixpoint check_inputs (g : globals) (ps : list string) : M bool :=
  match ps with
  | [] => ret true
  | input_file :: ps' =>
      iprint g (LInputFile input_file) ;;
      file <- Path_is_file input_file ;;
      if negb file then
        eprint (InputMissing input_file) ;; ret false
      else if negb (access_r w input_file) then
        eprint (InputUnreadable input_file) ;; ret false
      else check_inputs g ps'
  end.

Definition check_output_dir (g : globals) : M bool :=
  let output_file := _output_file g in
  if negb (access_w w (parent w output_file)) then
    eprint (OutputDirNotWritable (parent w output_file)) ;; ret false
  else
    iprint g LBlank ;; ret true.

Definition check_files (g : globals) : M bool :=
  iprint g LInputFiles ;;
  ok <- check_inputs g (_input_files g) ;;
  if negb ok then ret false else
  iprint g LBlank ;;
  let output_file := _output_file g in
  iprint g (LOutputFile output_file) ;;
  there <- Path_exists output_file ;;
  if there then
    if negb (_overwrite g) then
      eprint (OutputExists output_file) ;; ret false
    else
      file <- Path_is_file output_file ;;
      if negb file then
        eprint (OutputNotAFile output_file) ;; ret false
      else check_output_dir g
  else check_output_dir g.

Definition status_due (g : globals) (current_time last_status_time : Q) : bool :=
  match _status g with
  | Some s => truthy_int (Some s)
              && Qltb (inject_Z s) (current_time - last_status_time)
  | None => false
  end.

Definition preview_due (g : globals) (total_image_count : Z) : bool :=
  match _preview g with
  | Some p => truthy_int (Some p) && (total_image_count mod p =? 0)
  | None => false
  end.

(** Lines 115-126: probe the first input and negotiate the parameters. *)
Definition probe (g : globals) : M parameters :=
  let framerate := _framerate g in
  input0 <- first (_input_files g) ;;
  v0 <- get_reader input0 ;;
  let metadata := v_meta v0 in
  size <- getitem "size" (md_size metadata) ;;
  framerate <- (match framerate with
                | Some f => if negb (truthy_float (Some f))
                            then getitem "fps" (md_fps metadata)
                            else ret f
                | None => getitem "fps" (md_fps metadata)
                end) ;;
  raw <- getitem "pix_fmt" (md_pix_fmt metadata) ;;
  pixelformat <- group0 (Re.search pix_fmt_pattern raw) ;;
  codec <- getitem "codec" (md_codec metadata) ;;
  reader_close input0 ;;
  ret {| mp_size := size; mp_framerate := framerate;
         mp_pixelformat := pixelformat; mp_codec := codec |}.

(** Lines 128-138: report the parameters, prepare the preview figure. *)
Definition announce (g : globals) (mp : parameters) : M unit :=
  iprint g (LSize (fst (mp_size mp)) (snd (mp_size mp))) ;;
  iprint g (LFramerate (mp_framerate mp)) ;;
  iprint g (LPixelFormat (mp_pixelformat mp)) ;;
  iprint g (LCodec (mp_codec mp)) ;;
  iprint g (LQuality OUTPUT_QUALITY) ;;
  iprint g LBlank ;;
  if truthy_int (_preview g) then emit PreviewFigure else ret tt.

(** [# Status], lines 152-155; returns the new [last_status_time]. *)
Definition status_block (g : globals) (framerate : Q) (current_time : Q)
           (st : run_state) : M Q :=
  if status_due g current_time (last_status_time st) then
    secs <- truediv (inject_Z (total_image_count st)) framerate ;;
    iprint g (LStatus (current_time - start_time st)
                      (total_image_count st) secs) ;;
    ret current_time
  else ret (last_status_time st).

(** [# Preview], lines 157-160. *)
Definition preview_block (g : globals) (framerate : Q) (frame : frame)
           (st : run_state) : M unit :=
  if preview_due g (total_image_count st) then
    emit (Imshow frame) ;;
    secs <- truediv (inject_Z (total_image_count st)) framerate ;;
    emit (Suptitle (total_image_count st) secs) ;;
    emit Pause
  else ret tt.

(** The body of the inner loop, lines 150-161. *)
Definition transfer_frame (g : globals) (framerate : Q)
           (frame : frame) (st : run_state) : M run_state :=
  append_data frame ;;
  current_time <- perf_counter ;;
  last <- status_block g framerate current_time st ;;
  preview_block g framerate frame st ;;
  ret {| total_image_count := total_image_count st + 1;
         start_time := start_time st;
         last_status_time := last |}.

(** The body of the outer loop, lines 147-162. *)
Definition transfer_file (g : globals) (framerate : Q)
           (input_file : string) (st : run_state) : M run_state :=
  iprint g (LReading input_file) ;;
  v <- get_reader input_file ;;
  st' <- for_frames v (transfer_frame g framerate) st ;;
  reader_close input_file ;;
  ret st'.

(** Lines 140-165: open the writer, transfer every input, close it. *)
Definition transfer (g : globals) (mp : parameters) : M run_state :=
  start <- perf_counter ;;
  let st0 := {| total_image_count := 0;
                start_time := start;
                last_status_time := start |} in
  get_writer (_output_file g) (mp_framerate mp) OUTPUT_QUALITY
             (mp_codec mp) (mp_pixelformat mp) ;;
  st <- for_each (_input_files g) (transfer_file g (mp_framerate mp)) st0 ;;
  iprint g LBlank ;;
  writer_close (_output_file g) ;;
  ret st.

(** Lines 167-173: the final summary. The quotient is evaluated before
    the last [iprint] is called, whatever the quiet flag. *)
Definition summary (g : globals) (st : run_state) : M unit :=
  end_time <- perf_counter ;;
  let total_time := (end_time - start_time st)%Q in
  iprint g LDone ;;
  iprint g (LTotalDuration total_time) ;;
  iprint g (LTotalCount (total_image_count st)) ;;
  rate <- truediv (inject_Z (total_image_count st)) total_time ;;
  iprint g (LRate rate).

(** [process]. Python returns [None]; the embedding returns the final
    values of the local variables so that they can be spoken about. *)
Definition process (g : globals) : M run_state :=
  mp <- probe g ;;
  announce g mp ;;
  st <- transfer g mp ;;
  summary g st ;;
  ret st.

Definition main (p : parsed) : M unit :=
  r <- parse_arguments p ;;
  match r with
  | None => sys_exit 1
  | Some g =>
      iprint g (LVersion VERSION) ;;
      iprint g LBlank ;;
      ok <- check_files g ;;
      if negb ok then sys_exit 1 else
      process g ;; ret tt
  end.

End Program.

(** ** Observations of a run *)

(** The frames appended to the sink, in order. *)
Definition sink_frames (t : list event) : list frame :=
  flat_map (fun e => match e with AppendData f => [f] | _ => [] end) t.

(** The frames handed to the preview, and the titles drawn on it. *)
Definition shown_frames (t : list event) : list frame :=
  flat_map (fun e => match e with Imshow f => [f] | _ => [] end) t.

Definition titles (t : list event) : list (Z * Q) :=
  flat_map (fun e => match e with Suptitle i s => [(i, s)] | _ => [] end) t.

(** The status records printed: duration, images processed, video duration. *)
Definition status_records (t : list event) : list (Q * Z * Q) :=
  flat_map (fun e => match e with
                     | Stdout (LStatus d c s) => [(d, c, s)]
                     | _ => []
                     end) t.

(** The parameters the writer was opened with. *)
Definition writer_configs (t : list event) : list (string * Q * Z * string * string) :=
  flat_map (fun e => match e with
                     | OpenWriter p fps q c pf => [(p, fps, q, c, pf)]
                     | _ => []
                     end) t.

(** What [iprint] performs for a list of lines. *)
Definition printed (g : globals) (ls : list line) : list event :=
  if _quiet g then [] else map Stdout ls.

(** The lines of lines 128-133 and of the final summary. *)
Definition parameter_lines (mp : parameters) : list line :=
  [LSize (fst (mp_size mp)) (snd (mp_size mp)); LFramerate (mp_framerate mp);
   LPixelFormat (mp_pixelformat mp); LCodec (mp_codec mp);
   LQuality OUTPUT_QUALITY; LBlank].

Definition summary_lines (count : Z) (elapsed : Q) : list line :=
  [LDone; LTotalDuration elapsed; LTotalCount count;
   LRate (inject_Z count / elapsed)%Q].

(** The framerate that [probe] settles on for the first input [v], given
    the override. *)
Definition negotiated (g : globals) (v : video) (fps : Q) : Prop :=
  match _framerate g with
  | Some f => if Qeq_bool f 0 then md_fps (v_meta v) = Some fps else fps = f
  | None => md_fps (v_meta v) = Some fps
  end.

(** What the assertion of line 71 leaves of the framerate override: absent,
    zero, or positive. *)
Definition framerate_checked (a : Args.t) : Prop :=
  match Args.framerate a with
  | Some f => Qeq_bool f 0 = true \/ Qltb 0 f = true
  | None => True
  end.

(** The frame sequence of an input path. *)
Definition frames_of (w : world) (p : string) : list frame :=
  match get_reader_of w p with
  | Some v => v_frames v
  | None => []
  end.

(** Events that touch neither an input source nor the output sink. *)
Definition no_media (e : event) : Prop :=
  match e with
  | OpenReader _ | CloseReader _ | OpenWriter _ _ _ _ _
  | AppendData _ | CloseWriter _ => False
  | _ => True
  end.

(** Events other than the opening of the writer. *)
Definition not_open_writer (e : event) : Prop :=
  match e with
  | OpenWriter _ _ _ _ _ => False
  | _ => True
  end.

(** Events that neither open nor close anything. *)
Definition no_handle (e : event) : Prop :=
  match e with
  | OpenReader _ | CloseReader _ | OpenWriter _ _ _ _ _ | CloseWriter _ => False
  | _ => True
  end.

(** Open handles: a reader or the writer, by path. *)
Inductive handle :=
| HReader (p : string)
| HWriter (p : string).

Definition handle_eqb (a b : handle) : bool :=
  match a, b with
  | HReader p, HReader q => String.eqb p q
  | HWriter p, HWriter q => String.eqb p q
  | _, _ => false
  end.

Fixpoint release (h : handle) (hs : list handle) : list handle :=
  match hs with
  | [] => []
  | h' :: hs' => if handle_eqb h h' then hs' else h' :: release h hs'
  end.

Definition track (hs : list handle) (e : event) : list handle :=
  match e with
  | OpenReader p => HReader p :: hs
  | CloseReader p => release (HReader p) hs
  | OpenWriter p _ _ _ _ => HWriter p :: hs
  | CloseWriter p => release (HWriter p) hs
  | _ => hs
  end.

(** The handles still open after the events [t], most recent first. *)
Definition open_handles (t : list event) : list handle := fold_left track t [].

(** The elements of a list with their 0-based positions, counted from [c]. *)
Definition indexed {A} (c : nat) (xs : list A) : list (nat * A) :=
  combine (seq c (List.length xs)) xs.

(** The positions, with their frames, that a test on the position selects. *)
Definition positions_where (d : Z -> bool) (c : nat) (fs : list frame) : list (nat * frame) :=
  filter (fun x => d (Z.of_nat (fst x))) (indexed c fs).

(** The frames whose position is a multiple of [P]. *)
Definition preview_positions (P : Z) (fs : list frame) : list (nat * frame) :=
  positions_where (fun i => i mod P =? 0) 0 fs.

Definition title_of (framerate : Q) (x : nat * frame) : Z * Q :=
  (Z.of_nat (fst x), (inject_Z (Z.of_nat (fst x)) / framerate)%Q).

(** What the loops have done when they ran to their end from the state [st],
    the counter standing at [c], over inputs with the frames [fs]. *)
Definition transferred (g : globals) (framerate : Q) (fs : list frame) (c : nat)
           (st : run_state) (t : list event) (st' : run_state) : Prop :=
  total_image_count st' = Z.of_nat (c + List.length fs)
  /\ start_time st' = start_time st
  /\ sink_frames t = fs
  /\ shown_frames t = map snd (positions_where (preview_due g) c fs)
  /\ titles t = map (title_of framerate) (positions_where (preview_due g) c fs).

(** Events other than a status line. *)
Definition not_status (e : event) : Prop :=
  match e with
  | Stdout (LStatus _ _ _) => False
  | _ => True
  end.

(** Every status line of [t] gives as images processed one less than the
    number of frames appended before it, [k] frames having been appended
    before [t], and as video duration that count over the framerate. *)
Definition status_lags (framerate : Q) (k : nat) (t : list event) : Prop :=
  forall t1 d c s t2,
    t = t1 ++ Stdout (LStatus d c s) :: t2 ->
    Z.of_nat (k + List.length (sink_frames t1)) = c + 1
    /\ s = (inject_Z c / framerate)%Q.

(** Events of a set [P] only, whatever the outcome. *)
Definition emits {A} (P : event -> Prop) (m : M A) : Prop :=
  forall n t n' r, m n = (t, n', r) -> Forall P t.

(** Exceptions of a set [E] only. *)
Definition raises {A} (E : exn -> Prop) (m : M A) : Prop :=
  forall n t n' e, m n = (t, n', Exc e) -> E e.

(** The errors of the decode and encode layers raised while streaming, and
    the other exceptions. *)
Definition mid_stream (e : exn) : Prop :=
  match e with
  | DecodeError | EncodeError => True
  | _ => False
  end.

Definition not_mid_stream (e : exn) : Prop :=
  match e with
  | DecodeError | EncodeError => False
  | _ => True
  end.

(** ** A small run, used to exercise the statements below *)

Module Demo.

Definition md : metadata :=
  {| md_size := Some (640, 480); md_fps := Some (30 # 1)%Q;
     md_pix_fmt := Some "yuv420p(tv)"; md_codec := Some "h264" |}.

Definition fr (k : N) : frame := [[k]].

(** Two readable inputs of two frames and one frame, an output path that
    does not exist, a clock that advances two seconds per reading. *)
Definition w : world :=
  {| stat_fails := fun _ => false;
     is_file := fun p => String.eqb p "a.mp4" || String.eqb p "b.mp4";
     access_r := fun _ => true;
     path_exists := fun p => String.eqb p "old.mp4";
     parent := fun _ => ".";
     access_w := fun _ => true;
     get_reader_of := fun p =>
       if String.eqb p "a.mp4" then
         Some {| v_meta := md; v_frames := [fr 1; fr 2]; v_truncated := false |}
       else if String.eqb p "b.mp4" then
         Some {| v_meta := md; v_frames := [fr 3]; v_truncated := false |}
       else None;
     writer_opens := fun _ => true;
     append_ok := fun _ => true;
     clock := fun n => inject_Z (2 * Z.of_nat n) |}.

Definition args : Args.t :=
  {| Args.quiet := false; Args.inputs := ["a.mp4"; "b.mp4"];
     Args.output := "out.mp4"; Args.overwrite := false;
     Args.framerate := None; Args.status := Some 1; Args.preview := Some 2 |}.

Definition g : globals := globals_of args.

Definition run : list event * nat * result run_state :=
  Eval vm_compute in process w g 0%nat.

Definition trace : list event := fst (fst run).

Definition final : run_state :=
  {| total_image_count := 3; start_time := 0; last_status_time := 6 |}.

(** The same, but the first input breaks off after its first frame. *)
Definition broken : world :=
  {| stat_fails := stat_fails w;
     is_file := is_file w;
     access_r := access_r w;
     path_exists := path_exists w;
     parent := parent w;
     access_w := access_w w;
     get_reader_of := fun p =>
       if String.eqb p "a.mp4" then
         Some {| v_meta := md; v_frames := [fr 1]; v_truncated := true |}
       else get_reader_of w p;
     writer_opens := writer_opens w;
     append_ok := append_ok w;
     clock := clock w |}.

Definition broken_run : list event * nat * result run_state :=
  Eval vm_compute in process broken g 0%nat.

Definition whole : list event * nat * result unit :=
  Eval vm_compute in main w (Parsed args) 0%nat.

(** The output path exists and [-w] is not given. *)
Definition args_old : Args.t :=
  {| Args.quiet := false; Args.inputs := ["a.mp4"; "b.mp4"];
     Args.output := "old.mp4"; Args.overwrite := false;
     Args.framerate := None; Args.status := None; Args.preview := None |}.

(** [-s -1]: a negative status interval. *)
Definition args_negative_status : Args.t :=
  {| Args.quiet := false; Args.inputs := ["a.mp4"; "b.mp4"];
     Args.output := "out.mp4"; Args.overwrite := false;
     Args.framerate := None; Args.status := Some (-1); Args.preview := None |}.

(** The same files on a fast machine: a millisecond per clock reading. *)
Definition fast : world :=
  {| stat_fails := stat_fails w;
     is_file := is_file w;
     access_r := access_r w;
     path_exists := path_exists w;
     parent := parent w;
     access_w := access_w w;
     get_reader_of := get_reader_of w;
     writer_opens := writer_opens w;
     append_ok := append_ok w;
     clock := fun n => (Z.of_nat n # 1000)%Q |}.

Definition negative_status_run : list event * nat * result unit :=
  Eval vm_compute in main fast (Parsed args_negative_status) 0%nat.

(** The first input reports a pixel format that starts with a bracket. *)
Definition odd : world :=
  {| stat_fails := stat_fails w;
     is_file := is_file w;
     access_r := access_r w;
     path_exists := path_exists w;
     parent := parent w;
     access_w := access_w w;
     get_reader_of := fun p =>
       if String.eqb p "a.mp4" then
         Some {| v_meta := {| md_size := Some (640, 480); md_fps := Some (30 # 1)%Q;
                              md_pix_fmt := Some "(tv)"; md_codec := Some "h264" |};
                 v_frames := [fr 1; fr 2]; v_truncated := false |}
       else get_reader_of w p;
     writer_opens := writer_opens w;
     append_ok := append_ok w;
     clock := clock w |}.

End Demo.

(** ** Further observations and conditions *)

(** The complaints written to the error stream. *)
Definition complaints (t : list event) : list complaint :=
  flat_map (fun e => match e with Stderr c => [c] | _ => [] end) t.

(** What the assertions of [parse_arguments] let through: at least one input,
    a framerate that is absent, zero or positive, a preview interval that is
    absent, zero or positive. The status interval is not looked at. *)
Definition args_valid (a : Args.t) : bool :=
  (0 <? Z.of_nat (List.length (Args.inputs a)))
  && match Args.framerate a with
     | Some f => Qeq_bool f 0 || Qltb 0 f
     | None => true
     end
  && match Args.preview a with
     | Some p => (p =? 0) || (0 <? p)
     | None => true
     end.

(** What [check_files] asks of the file system. *)
Definition inputs_ok (w : world) (ps : list string) : bool :=
  forallb (fun p => is_file w p && access_r w p) ps.

Definition files_ok (w : world) (g : globals) : bool :=
  inputs_ok w (_input_files g)
  && (if path_exists w (_output_file g)
      then _overwrite g && is_file w (_output_file g)
      else true)
  && access_w w (parent w (_output_file g)).

(** Events other than a line on the standard output. *)
Definition not_stdout (e : event) : Prop :=
  match e with
  | Stdout _ => False
  | _ => True
  end.

Definition is_stdout (e : event) : bool :=
  match e with
  | Stdout _ => true
  | _ => false
  end.

(** A trace without its lines on the standard output. *)
Definition besides_stdout (t : list event) : list event :=
  filter (fun e => negb (is_stdout e)) t.

(** Events other than those of the preview. *)
Definition not_preview (e : event) : Prop :=
  match e with
  | PreviewFigure | Imshow _ | Suptitle _ _ | Pause => False
  | _ => True
  end.

(** Events other than the appending of a frame. *)
Definition not_append (e : event) : Prop :=
  match e with
  | AppendData _ => False
  | _ => True
  end.

(** The exception of a failing [os.stat], and no other. *)
Definition os_error (e : exn) : Prop :=
  match e with
  | OSError => True
  | _ => False
  end.

(** Exceptions other than [SystemExit] and [AssertionError]. *)
Definition runtime_error (e : exn) : Prop :=
  match e with
  | SystemExit _ | AssertionError => False
  | _ => True
  end.

(** The globals with another quiet flag. *)
Definition with_quiet (b : bool) (g : globals) : globals :=
  {| _quiet := b;
     _input_files := _input_files g;
     _output_file := _output_file g;
     _overwrite := _overwrite g;
     _framerate := _framerate g;
     _status := _status g;
     _preview := _preview g |}.

(** Two computations that differ in their lines on the standard output
    only. *)
Definition same_besides_stdout {A} (m1 m2 : M A) : Prop :=
  forall n,
    besides_stdout (fst (fst (m1 n))) = besides_stdout (fst (fst (m2 n)))
    /\ snd (fst (m1 n)) = snd (fst (m2 n))
    /\ snd (m1 n) = snd (m2 n).

(** The arguments with another quiet flag. *)
Definition args_with_quiet (b : bool) (a : Args.t) : Args.t :=
  {| Args.quiet := b;
     Args.inputs := Args.inputs a;
     Args.output := Args.output a;
     Args.overwrite := Args.overwrite a;
     Args.framerate := Args.framerate a;
     Args.status := Args.status a;
     Args.preview := Args.preview a |}.

(** Lines 31-35 of [main], once [parse_arguments] has set the globals. *)
Definition checked_run (w : world) (g : globals) : M unit :=
  (iprint g (LVersion VERSION) ;;
   iprint g LBlank ;;
   ok <- check_files w g ;;
   if negb ok then sys_exit 1 else process w g ;; ret tt)%monad.

(** Two worlds that differ at most in the metadata of the inputs other than
    [input0]. *)
Definition same_streams (input0 : string) (w1 w2 : world) : Prop :=
  get_reader_of w1 input0 = get_reader_of w2 input0
  /\ (forall p,
         match get_reader_of w1 p, get_reader_of w2 p with
         | Some v1, Some v2 =>
             v_frames v1 = v_frames v2 /\ v_truncated v1 = v_truncated v2
         | None, None => True
         | _, _ => False
         end)
  /\ (forall p, writer_opens w1 p = writer_opens w2 p)
  /\ (forall f, append_ok w1 f = append_ok w2 f)
  /\ (forall n, clock w1 n = clock w2 n).

(** The writer has not been opened yet, is open, or has been closed. *)
Inductive writer_state :=
| NotOpened
| Opened
| Closed.

(** The reader that is open, if any, and the state of the writer. *)
Definition media_state : Type := option string * writer_state.

(** The state after an event, or [None] when the event does not fit the
    state: a reader opened while another is open, a reader closed that is not
    the open one, the writer opened a second time or while a reader is open,
    a frame appended without an open reader and an open writer, the writer
    closed while a reader is open or without being open. *)
Definition media_step (s : media_state) (e : event) : option media_state :=
  match e, s with
  | OpenReader p, (None, wr) => Some (Some p, wr)
  | OpenReader _, (Some _, _) => None
  | CloseReader p, (Some q, wr) => if String.eqb p q then Some (None, wr) else None
  | CloseReader _, (None, _) => None
  | OpenWriter _ _ _ _ _, (None, NotOpened) => Some (None, Opened)
  | OpenWriter _ _ _ _ _, _ => None
  | AppendData _, (Some q, Opened) => Some (Some q, Opened)
  | AppendData _, _ => None
  | CloseWriter _, (None, Opened) => Some (None, Closed)
  | CloseWriter _, _ => None
  | _, _ => Some s
  end.

Fixpoint media_after (s : media_state) (t : list event) : option media_state :=
  match t with
  | [] => Some s
  | e :: t' =>
      match media_step s e with
      | Some s' => media_after s' t'
      | None => None
      end
  end.

(** A computation whose events fit the state [s], and that leaves the state
    [s'] when it returns. *)
Definition keeps_media {A} (s s' : media_state) (m : M A) : Prop :=
  forall n t n' r,
    m n = (t, n', r) ->
    match r with
    | Ret _ => media_after s t = Some s'
    | Exc _ => media_after s t <> None
    end.

(** An input that is not a readable file. *)
Definition bad_input (w : world) (p : string) : bool :=
  negb (is_file w p && access_r w p).

Definition all_alnum (s : string) : bool :=
  forallb is_alnum (list_ascii_of_string s).

(** More small runs. *)
Module More.

(** An input that does not exist. *)
Definition args_missing : Args.t :=
  {| Args.quiet := false; Args.inputs := ["a.mp4"; "c.mp4"];
     Args.output := "out.mp4"; Args.overwrite := false;
     Args.framerate := None; Args.status := None; Args.preview := None |}.

(** [-f -25]. *)
Definition args_negative_framerate : Args.t :=
  {| Args.quiet := false; Args.inputs := ["a.mp4"];
     Args.output := "out.mp4"; Args.overwrite := false;
     Args.framerate := Some (-25 # 1)%Q; Args.status := None; Args.preview := None |}.

(** [-q], status every second, preview every second frame. *)
Definition args_quiet : Args.t :=
  {| Args.quiet := true; Args.inputs := ["a.mp4"; "b.mp4"];
     Args.output := "out.mp4"; Args.overwrite := false;
     Args.framerate := None; Args.status := Some 1; Args.preview := Some 2 |}.

(** Neither status nor preview. *)
Definition args_plain : Args.t :=
  {| Args.quiet := false; Args.inputs := ["a.mp4"; "b.mp4"];
     Args.output := "out.mp4"; Args.overwrite := false;
     Args.framerate := None; Args.status := Some 0; Args.preview := None |}.

(** The encoder refuses the third frame. *)
Definition picky : world :=
  {| stat_fails := stat_fails Demo.w;
     is_file := is_file Demo.w;
     access_r := access_r Demo.w;
     path_exists := path_exists Demo.w;
     parent := parent Demo.w;
     access_w := access_w Demo.w;
     get_reader_of := get_reader_of Demo.w;
     writer_opens := writer_opens Demo.w;
     append_ok := fun f => match f with [[3%N]] => false | _ => true end;
     clock := clock Demo.w |}.

Definition picky_run : list event * nat * result unit :=
  Eval vm_compute in main picky (Parsed Demo.args) 0%nat.

(** The clock stands still. *)
Definition frozen : world :=
  {| stat_fails := stat_fails Demo.w;
     is_file := is_file Demo.w;
     access_r := access_r Demo.w;
     path_exists := path_exists Demo.w;
     parent := parent Demo.w;
     access_w := access_w Demo.w;
     get_reader_of := get_reader_of Demo.w;
     writer_opens := writer_opens Demo.w;
     append_ok := append_ok Demo.w;
     clock := fun _ => 0%Q |}.

(** The second input reports other metadata. *)
Definition mixed : world :=
  {| stat_fails := stat_fails Demo.w;
     is_file := is_file Demo.w;
     access_r := access_r Demo.w;
     path_exists := path_exists Demo.w;
     parent := parent Demo.w;
     access_w := access_w Demo.w;
     get_reader_of := fun p =>
       if String.eqb p "b.mp4" then
         Some {| v_meta := {| md_size := Some (320, 200); md_fps := None;
                              md_pix_fmt := Some ""; md_codec := None |};
                 v_frames := [Demo.fr 3]; v_truncated := false |}
       else get_reader_of Demo.w p;
     writer_opens := writer_opens Demo.w;
     append_ok := append_ok Demo.w;
     clock := clock Demo.w |}.


(** [stat] fails on the second input of [args_missing]. *)
Definition unstat : world :=
  {| stat_fails := fun p => String.eqb p "c.mp4";
     is_file := is_file Demo.w;
     access_r := access_r Demo.w;
     path_exists := path_exists Demo.w;
     parent := parent Demo.w;
     access_w := access_w Demo.w;
     get_reader_of := get_reader_of Demo.w;
     writer_opens := writer_opens Demo.w;
     append_ok := append_ok Demo.w;
     clock := clock Demo.w |}.

End More.

Lemma in_alnum_class c : Re.in_class alnum_class c = is_alnum c.
Proof.
  unfold Re.in_class, alnum_class, Re.in_range, is_alnum; simpl.
  rewrite orb_false_r, orb_assoc. reflexivity.
Qed.

Lemma plus_greedy_cons cls k c s :
  Re.plus_greedy cls k (String c s)
  = if Re.in_class cls c
    then match Re.plus_greedy cls k s with
         | Some m => Some (String c m)
         | None => option_map (String c) (k s)
         end
    else None.
Proof. reflexivity. Qed.

Lemma match_here_plus cls its s :
  Re.match_here (Re.OneOrMore cls :: its) s = Re.plus_greedy cls (Re.match_here its) s.
Proof. reflexivity. Qed.

Lemma search_anchored its s :
  Re.search {| Re.anchored := true; Re.items := its |} s = Re.match_here its s.
Proof. reflexivity. Qed.

Lemma plus_greedy_alnum c s :
  is_alnum c = true ->
  Re.plus_greedy alnum_class (Re.match_here []) (String c s)
  = Some (String c (leading_alnum_run s)).
Proof.
  revert c. induction s as [|d s IH]; intros c Hc;
    rewrite plus_greedy_cons, in_alnum_class, Hc.
  - reflexivity.
  - destruct (is_alnum d) eqn:Hd.
    + rewrite (IH d Hd). cbn [leading_alnum_run]. rewrite Hd. reflexivity.
    + rewrite plus_greedy_cons, in_alnum_class, Hd.
      cbn [leading_alnum_run Re.match_here option_map]. rewrite Hd. reflexivity.
Qed.

Lemma search_alnum s :
  begins_alnum s = true ->
  Re.search pix_fmt_pattern s = Some (leading_alnum_run s).
Proof.
  destruct s as [|c s]; cbn [begins_alnum]; [discriminate|]. intros Hc.
  unfold pix_fmt_pattern. rewrite search_anchored, match_here_plus.
  rewrite (plus_greedy_alnum c s Hc). cbn [leading_alnum_run]. rewrite Hc. reflexivity.
Qed.

Lemma search_not_alnum s :
  begins_alnum s = false -> Re.search pix_fmt_pattern s = None.
Proof.
  destruct s as [|c s]; cbn [begins_alnum]; intros Hc; [reflexivity|].
  unfold pix_fmt_pattern. rewrite search_anchored, match_here_plus.
  rewrite plus_greedy_cons, in_alnum_class, Hc. reflexivity.
Qed.

(** ** Laws of the monad *)

Lemma bind_inv {A B} (m : M A) (k : A -> M B) n t n' r :
  bind m k n = (t, n', r) ->
  (exists e, m n = (t, n', Exc e) /\ r = Exc e)
  \/ (exists t1 n1 a t2, m n = (t1, n1, Ret a) /\ k a n1 = (t2, n', r) /\ t = t1 ++ t2).
Proof.
  unfold bind. destruct (m n) as [[t1 n1] [a|e]].
  - destruct (k a n1) as [[t2 n2] r2] eqn:Hk. intros H; inversion H; subst.
    right. exists t1, n1, a, t2. auto.
  - intros H; inversion H; subst. left. exists e. auto.
Qed.

Lemma bind_ret_inv {A B} (m : M A) (k : A -> M B) n t n' b :
  bind m k n = (t, n', Ret b) ->
  exists t1 n1 a t2, m n = (t1, n1, Ret a) /\ k a n1 = (t2, n', Ret b) /\ t = t1 ++ t2.
Proof.
  intros H. apply bind_inv in H. destruct H as [(e & _ & He) | H]; [discriminate | exact H].
Qed.

Lemma bind_exc_inv {A B} (m : M A) (k : A -> M B) n t n' e :
  bind m k n = (t, n', Exc e) ->
  m n = (t, n', Exc e)
  \/ (exists t1 n1 a t2, m n = (t1, n1, Ret a) /\ k a n1 = (t2, n', Exc e) /\ t = t1 ++ t2).
Proof.
  intros H. apply bind_inv in H. destruct H as [(e' & Hm & He) | H]; [left | right; exact H].
  inversion He; subst. exact Hm.
Qed.

Lemma bind_ret_run {A B} (m : M A) (k : A -> M B) n t1 n1 a :
  m n = (t1, n1, Ret a) ->
  bind m k n = (let '(t2, n2, r2) := k a n1 in (t1 ++ t2, n2, r2)).
Proof. intros H. unfold bind. rewrite H. reflexivity. Qed.

Lemma bind_exc_run {A B} (m : M A) (k : A -> M B) n t1 n1 e :
  m n = (t1, n1, Exc e) -> bind m k n = (t1, n1, Exc e).
Proof. intros H. unfold bind. rewrite H. reflexivity. Qed.

(** *** Which events a computation can perform *)

Section Emits.

Variable P : event -> Prop.

Lemma emits_ret {A} (a : A) : emits P (ret a).
Proof. intros n t n' r H. inversion H. constructor. Qed.

Lemma emits_raise {A} e : emits P (@raise A e).
Proof. intros n t n' r H. inversion H. constructor. Qed.

Lemma emits_emit e : P e -> emits P (emit e).
Proof. intros He n t n' r H. inversion H. repeat constructor. exact He. Qed.

Lemma emits_bind {A B} (m : M A) (k : A -> M B) :
  emits P m -> (forall a, emits P (k a)) -> emits P (bind m k).
Proof.
  intros Hm Hk n t n' r H. apply bind_inv in H.
  destruct H as [(e & H & _) | (t1 & n1 & a & t2 & H1 & H2 & ->)].
  - exact (Hm _ _ _ _ H).
  - apply Forall_app. split; [exact (Hm _ _ _ _ H1) | exact (Hk _ _ _ _ _ H2)].
Qed.

Lemma emits_if {A} (b : bool) (m1 m2 : M A) :
  emits P m1 -> emits P m2 -> emits P (if b then m1 else m2).
Proof. destruct b; auto. Qed.

Lemma emits_for_each {A S} (xs : list A) (body : A -> S -> M S) :
  (forall x s, emits P (body x s)) -> forall s, emits P (for_each xs body s).
Proof.
  intros Hb. induction xs as [|x xs IH]; intros s; cbn [for_each].
  - apply emits_ret.
  - apply emits_bind; [apply Hb | exact IH].
Qed.

Lemma emits_assert b : emits P (assert b).
Proof. destruct b; [apply emits_ret | apply emits_raise]. Qed.

Lemma emits_truediv a b : emits P (truediv a b).
Proof. unfold truediv. apply emits_if; [apply emits_raise | apply emits_ret]. Qed.

Lemma emits_getitem {A} key (o : option A) : emits P (getitem key o).
Proof. destruct o; [apply emits_ret | apply emits_raise]. Qed.

Lemma emits_group0 o : emits P (group0 o).
Proof. destruct o; [apply emits_ret | apply emits_raise]. Qed.

Lemma emits_first {A} (xs : list A) : emits P (first xs).
Proof. destruct xs; [apply emits_raise | apply emits_ret]. Qed.

Lemma emits_perf_counter w : emits P (perf_counter w).
Proof. intros n t n' r H. inversion H. constructor. Qed.

End Emits.

Lemma emits_weaken {A} (P Q : event -> Prop) (m : M A) :
  (forall e, P e -> Q e) -> emits P m -> emits Q m.
Proof.
  intros HPQ Hm n t n' r H. eapply Forall_impl; [exact HPQ | exact (Hm _ _ _ _ H)].
Qed.

(** *** Which exceptions a computation can raise *)

Section Raises.

Variable E : exn -> Prop.

Lemma raises_ret {A} (a : A) : raises E (ret a).
Proof. intros n t n' e H. inversion H. Qed.

Lemma raises_raise {A} e : E e -> raises E (@raise A e).
Proof. intros He n t n' e' H. inversion H; subst. exact He. Qed.

Lemma raises_emit e : raises E (emit e).
Proof. intros n t n' e' H. inversion H. Qed.

Lemma raises_bind {A B} (m : M A) (k : A -> M B) :
  raises E m -> (forall a, raises E (k a)) -> raises E (bind m k).
Proof.
  intros Hm Hk n t n' e H. apply bind_exc_inv in H.
  destruct H as [H | (t1 & n1 & a & t2 & _ & H2 & _)].
  - exact (Hm _ _ _ _ H).
  - exact (Hk _ _ _ _ _ H2).
Qed.

Lemma raises_if {A} (b : bool) (m1 m2 : M A) :
  raises E m1 -> raises E m2 -> raises E (if b then m1 else m2).
Proof. destruct b; auto. Qed.

Lemma raises_for_each {A S} (xs : list A) (body : A -> S -> M S) :
  (forall x s, raises E (body x s)) -> forall s, raises E (for_each xs body s).
Proof.
  intros Hb. induction xs as [|x xs IH]; intros s; cbn [for_each].
  - apply raises_ret.
  - apply raises_bind; [apply Hb | exact IH].
Qed.

Lemma raises_perf_counter w : raises E (perf_counter w).
Proof. intros n t n' e H. inversion H. Qed.

End Raises.

(** *** Loops that run to their end *)

Lemma for_each_ret_ind {A S} (body : A -> S -> M S)
      (R : list A -> S -> nat -> list event -> nat -> S -> Prop) :
  (forall s n, R [] s n [] n s) ->
  (forall x xs s n t1 n1 s1 t2 n2 s2,
      body x s n = (t1, n1, Ret s1) ->
      for_each xs body s1 n1 = (t2, n2, Ret s2) ->
      R xs s1 n1 t2 n2 s2 ->
      R (x :: xs) s n (t1 ++ t2) n2 s2) ->
  forall xs s n t n' s',
    for_each xs body s n = (t, n', Ret s') -> R xs s n t n' s'.
Proof.
  intros Hnil Hcons. induction xs as [|x xs IH]; intros s n t n' s' H.
  - inversion H; subst. apply Hnil.
  - cbn [for_each] in H. apply bind_ret_inv in H.
    destruct H as (t1 & n1 & s1 & t2 & H1 & H2 & ->).
    eapply Hcons; eauto.
Qed.

(** A loop that raises ran some iterations to their end and raised in the
    next one. *)
Lemma for_each_exc_inv {A S} (body : A -> S -> M S) xs :
  forall s n t n' e,
    for_each xs body s n = (t, n', Exc e) ->
    exists xs1 x xs2 t1 n1 s1 t2,
      xs = xs1 ++ x :: xs2
      /\ for_each xs1 body s n = (t1, n1, Ret s1)
      /\ body x s1 n1 = (t2, n', Exc e)
      /\ t = t1 ++ t2.
Proof.
  induction xs as [|x xs IH]; intros s n t n' e H.
  - inversion H.
  - cbn [for_each] in H. apply bind_exc_inv in H.
    destruct H as [H | (t1 & n1 & s1 & t2 & H1 & H2 & ->)].
    + exists [], x, xs, [], n, s, t. repeat split; auto.
    + destruct (IH _ _ _ _ _ H2) as (xs1 & y & xs2 & u1 & m1 & r1 & u2 & -> & Hf & Hb & ->).
      exists (x :: xs1), y, xs2, (t1 ++ u1), m1, r1, u2. repeat split; auto.
      * cbn [for_each]. rewrite (bind_ret_run _ _ _ _ _ _ H1), Hf. reflexivity.
      * apply app_assoc.
Qed.

(** ** The primitives *)

Section Primitives.

Variable w : world.

Lemma iprint_run g l n : iprint g l n = (printed g [l], n, Ret tt).
Proof. unfold iprint, printed. destruct (_quiet g); reflexivity. Qed.

Lemma get_reader_ret p n t n' v :
  get_reader w p n = (t, n', Ret v) ->
  get_reader_of w p = Some v /\ t = [OpenReader p] /\ n' = n.
Proof.
  unfold get_reader. destruct (get_reader_of w p) as [v'|]; intros H; inversion H; auto.
Qed.

Lemma get_writer_ret p fps q c pf n t n' u :
  get_writer w p fps q c pf n = (t, n', Ret u) ->
  writer_opens w p = true /\ t = [OpenWriter p fps q c pf] /\ n' = n.
Proof.
  unfold get_writer. destruct (writer_opens w p); intros H; inversion H; auto.
Qed.

Lemma getitem_ret {A} key (o : option A) n t n' a :
  getitem key o n = (t, n', Ret a) -> o = Some a /\ t = [] /\ n' = n.
Proof. destruct o; intros H; inversion H; auto. Qed.

Lemma group0_ret o n t n' s :
  group0 o n = (t, n', Ret s) -> o = Some s /\ t = [] /\ n' = n.
Proof. destruct o; intros H; inversion H; auto. Qed.

Lemma first_ret {A} (xs : list A) n t n' x :
  first xs n = (t, n', Ret x) -> (exists xs', xs = x :: xs') /\ t = [] /\ n' = n.
Proof. destruct xs; intros H; inversion H; subst; eauto. Qed.

Lemma truediv_ret a b n t n' q :
  truediv a b n = (t, n', Ret q) ->
  Qeq_bool b 0 = false /\ q = (a / b)%Q /\ t = [] /\ n' = n.
Proof. unfold truediv. destruct (Qeq_bool b 0); intros H; inversion H; auto. Qed.

Lemma assert_ret b n t n' u :
  assert b n = (t, n', Ret u) -> b = true /\ t = [] /\ n' = n.
Proof. destruct b; intros H; inversion H; auto. Qed.

End Primitives.

(** Take a successful sequence apart, one statement at a time. *)
Ltac prim H :=
  lazymatch type of H with
  | iprint _ _ _ = _ => rewrite iprint_run in H; inversion H; subst; clear H
  | get_reader _ _ _ = _ => apply get_reader_ret in H; destruct H as (? & ? & ?); subst
  | get_writer _ _ _ _ _ _ _ = _ => apply get_writer_ret in H; destruct H as (? & ? & ?); subst
  | getitem _ _ _ = _ => apply getitem_ret in H; destruct H as (? & ? & ?); subst
  | group0 _ _ = _ => apply group0_ret in H; destruct H as (? & ? & ?); subst
  | truediv _ _ _ = _ => apply truediv_ret in H; destruct H as (? & ? & ? & ?); subst
  | assert _ _ = _ => apply assert_ret in H; destruct H as (? & ? & ?); subst
  | _ => idtac
  end.

Ltac step H H1 :=
  let t1 := fresh "t" in let n1 := fresh "n" in let a := fresh "a" in
  let t2 := fresh "t" in
  apply bind_ret_inv in H; destruct H as (t1 & n1 & a & t2 & H1 & H & ->);
  prim H1.

Ltac stepv H H1 a t1 :=
  let n1 := fresh "n" in let t2 := fresh "t" in
  apply bind_ret_inv in H; destruct H as (t1 & n1 & a & t2 & H1 & H & ->);
  prim H1.

Ltac done H := inversion H; subst; clear H.

(** ** Projections of traces *)

Lemma printed_app g l1 l2 : printed g (l1 ++ l2) = printed g l1 ++ printed g l2.
Proof. unfold printed. destruct (_quiet g); [reflexivity | apply map_app]. Qed.

Lemma sink_frames_app t1 t2 : sink_frames (t1 ++ t2) = sink_frames t1 ++ sink_frames t2.
Proof. apply flat_map_app. Qed.

Lemma shown_frames_app t1 t2 : shown_frames (t1 ++ t2) = shown_frames t1 ++ shown_frames t2.
Proof. apply flat_map_app. Qed.

Lemma titles_app t1 t2 : titles (t1 ++ t2) = titles t1 ++ titles t2.
Proof. apply flat_map_app. Qed.

Lemma writer_configs_app t1 t2 :
  writer_configs (t1 ++ t2) = writer_configs t1 ++ writer_configs t2.
Proof. apply flat_map_app. Qed.

Lemma open_handles_app t1 t2 :
  open_handles (t1 ++ t2) = fold_left track t2 (open_handles t1).
Proof. apply fold_left_app. Qed.

Lemma sink_frames_printed g ls : sink_frames (printed g ls) = [].
Proof.
  unfold printed. destruct (_quiet g); [reflexivity|].
  induction ls as [|l ls IH]; [reflexivity | exact IH].
Qed.

Lemma shown_frames_printed g ls : shown_frames (printed g ls) = [].
Proof.
  unfold printed. destruct (_quiet g); [reflexivity|].
  induction ls as [|l ls IH]; [reflexivity | exact IH].
Qed.

Lemma titles_printed g ls : titles (printed g ls) = [].
Proof.
  unfold printed. destruct (_quiet g); [reflexivity|].
  induction ls as [|l ls IH]; [reflexivity | exact IH].
Qed.

Lemma track_no_handle t : Forall no_handle t -> forall hs, fold_left track t hs = hs.
Proof.
  induction 1 as [|e t He _ IH]; intros hs; [reflexivity|].
  cbn [fold_left]. destruct e; try contradiction; apply IH.
Qed.

Lemma writer_configs_no_handle t : Forall no_handle t -> writer_configs t = [].
Proof.
  induction 1 as [|e t He _ IH]; [reflexivity|].
  destruct e; try contradiction; exact IH.
Qed.

Lemma no_handle_printed g ls : Forall no_handle (printed g ls).
Proof.
  unfold printed. destruct (_quiet g); [constructor|].
  apply Forall_map, Forall_forall. intros; exact I.
Qed.

Lemma handle_eqb_refl h : handle_eqb h h = true.
Proof. destruct h; apply String.eqb_refl. Qed.

Lemma release_head h hs : release h (h :: hs) = hs.
Proof. cbn [release]. rewrite handle_eqb_refl. reflexivity. Qed.

(** ** One frame *)

Section Frame.

Variables (w : world) (g : globals) (framerate : Q).

Lemma emits_iprint P l : (forall l', P (Stdout l')) -> emits P (iprint g l).
Proof.
  intros HP. unfold iprint. apply emits_if; [apply emits_ret | apply emits_emit, HP].
Qed.

Lemma emits_append_data P f : P (AppendData f) -> emits P (append_data w f).
Proof.
  intros HP. unfold append_data. apply emits_if; [apply emits_emit, HP | apply emits_raise].
Qed.

Ltac emits_auto :=
  repeat first
    [ apply emits_bind; [|intros ?]
    | apply emits_ret
    | apply emits_raise
    | apply emits_truediv
    | apply emits_perf_counter
    | apply emits_append_data; exact I
    | apply emits_iprint; intros; exact I
    | apply emits_emit; exact I
    | apply emits_if ].

Lemma transfer_frame_no_handle f st :
  emits no_handle (transfer_frame w g framerate f st).
Proof. unfold transfer_frame, status_block, preview_block. emits_auto. Qed.

Lemma status_block_ret now st n t n' last :
  status_block g framerate now st n = (t, n', Ret last) ->
  n' = n /\ sink_frames t = [] /\ shown_frames t = [] /\ titles t = [].
Proof.
  unfold status_block. intros H.
  destruct (status_due g now (last_status_time st)).
  - step H Hd. step H Hp. done H. rewrite app_nil_r. cbn [app].
    rewrite sink_frames_printed, shown_frames_printed, titles_printed. auto.
  - done H. auto.
Qed.

Lemma preview_block_ret f st n t n' u :
  preview_block g framerate f st n = (t, n', Ret u) ->
  let c := total_image_count st in
  n' = n /\ sink_frames t = []
  /\ shown_frames t = (if preview_due g c then [f] else [])
  /\ titles t = (if preview_due g c then [(c, (inject_Z c / framerate)%Q)] else []).
Proof.
  unfold preview_block. intros H.
  destruct (preview_due g (total_image_count st)).
  - step H Hi. done Hi. step H Hd. step H Hs. done Hs. done H. cbn. auto.
  - done H. cbn. auto.
Qed.

(** What a frame that went through has done. *)
Lemma transfer_frame_ret f st n t n' st' :
  transfer_frame w g framerate f st n = (t, n', Ret st') ->
  let c := total_image_count st in
  n' = S n
  /\ total_image_count st' = c + 1
  /\ start_time st' = start_time st
  /\ sink_frames t = [f]
  /\ shown_frames t = (if preview_due g c then [f] else [])
  /\ titles t = (if preview_due g c then [(c, (inject_Z c / framerate)%Q)] else []).
Proof.
  unfold transfer_frame. intros H.
  step H Ha. unfold append_data in Ha.
  destruct (append_ok w f); [|discriminate]. done Ha.
  step H Hc. done Hc.
  step H Hs. apply status_block_ret in Hs. destruct Hs as (-> & Hs1 & Hs2 & Hs3).
  step H Hp. apply preview_block_ret in Hp. destruct Hp as (-> & Hp1 & Hp2 & Hp3).
  done H. cbn [total_image_count start_time].
  rewrite !sink_frames_app, !shown_frames_app, !titles_app.
  rewrite Hs1, Hs2, Hs3, Hp1, Hp2, Hp3. cbn. rewrite ?app_nil_r. repeat split; reflexivity.
Qed.

End Frame.

(** ** Positions *)

Lemma indexed_cons {A} c (x : A) xs : indexed c (x :: xs) = (c, x) :: indexed (S c) xs.
Proof. reflexivity. Qed.

Lemma indexed_app {A} (xs ys : list A) :
  forall c, indexed c (xs ++ ys) = indexed c xs ++ indexed (c + List.length xs) ys.
Proof.
  induction xs as [|x xs IH]; intros c.
  - cbn [app List.length]. rewrite Nat.add_0_r. reflexivity.
  - cbn [app]. rewrite !indexed_cons, IH. cbn [app List.length].
    rewrite Nat.add_succ_r. reflexivity.
Qed.

Lemma positions_where_cons d c f fs :
  positions_where d c (f :: fs)
  = (if d (Z.of_nat c) then [(c, f)] else []) ++ positions_where d (S c) fs.
Proof.
  unfold positions_where. rewrite indexed_cons. cbn [filter fst].
  destruct (d (Z.of_nat c)); reflexivity.
Qed.

Lemma positions_where_app d fs1 fs2 c :
  positions_where d c (fs1 ++ fs2)
  = positions_where d c fs1 ++ positions_where d (c + List.length fs1) fs2.
Proof.
  unfold positions_where. rewrite indexed_app, filter_app. reflexivity.
Qed.

Lemma positions_where_ext d1 d2 c fs :
  (forall i, 0 <= i -> d1 i = d2 i) -> positions_where d1 c fs = positions_where d2 c fs.
Proof.
  intros Hd. unfold positions_where. apply filter_ext. intros x. apply Hd. lia.
Qed.

(** ** The two loops, when they run to their end *)

Section Loops.

Variables (w : world) (g : globals) (framerate : Q).

Lemma frames_ret fs :
  forall st n t n' st' c,
    for_each fs (transfer_frame w g framerate) st n = (t, n', Ret st') ->
    total_image_count st = Z.of_nat c ->
    transferred g framerate fs c st t st'.
Proof.
  induction fs as [|f fs IH]; intros st n t n' st' c H Hc.
  - done H. unfold transferred. cbn. rewrite Nat.add_0_r. auto.
  - cbn [for_each] in H. stepv H Hf st1 t1.
    apply transfer_frame_ret in Hf. cbn zeta in Hf.
    destruct Hf as (-> & Hcount & Hstart & Hsink & Hshown & Htitles).
    assert (Hc' : total_image_count st1 = Z.of_nat (S c)) by lia.
    destruct (IH _ _ _ _ _ _ H Hc') as (Ic & Is & Isink & Ishown & Ititles).
    unfold transferred.
    rewrite sink_frames_app, shown_frames_app, titles_app, positions_where_cons, !map_app.
    rewrite Hsink, Hshown, Htitles, Isink, Ishown, Ititles, Hc.
    repeat split.
    + rewrite Ic. f_equal. cbn [List.length]. lia.
    + congruence.
    + destruct (preview_due g (Z.of_nat c)); reflexivity.
    + destruct (preview_due g (Z.of_nat c)); reflexivity.
Qed.

Lemma frames_no_handle fs st :
  emits no_handle (for_each fs (transfer_frame w g framerate) st).
Proof. apply emits_for_each. intros. apply transfer_frame_no_handle. Qed.

Lemma transfer_file_ret p st n t n' st' :
  transfer_file w g framerate p st n = (t, n', Ret st') ->
  exists v tf,
    get_reader_of w p = Some v
    /\ v_truncated v = false
    /\ for_each (v_frames v) (transfer_frame w g framerate) st n = (tf, n', Ret st')
    /\ t = printed g [LReading p] ++ [OpenReader p] ++ tf ++ [CloseReader p].
Proof.
  unfold transfer_file, for_frames, reader_close. intros H.
  step H Hp. stepv H Hr v tr. stepv H Hf st1 tf. stepv Hf Hl st2 tfs.
  destruct (v_truncated v) eqn:Htr; [discriminate|]. done Hf.
  step H Hc. done Hc. done H.
  exists v, tfs. rewrite !app_nil_r. auto.
Qed.

Lemma files_ret ps :
  forall st n t n' st' c,
    for_each ps (transfer_file w g framerate) st n = (t, n', Ret st') ->
    total_image_count st = Z.of_nat c ->
    transferred g framerate (flat_map (frames_of w) ps) c st t st'
    /\ (forall hs, fold_left track t hs = hs)
    /\ writer_configs t = [].
Proof.
  induction ps as [|p ps IH]; intros st n t n' st' c H Hc.
  - done H. split; [|split; reflexivity].
    unfold transferred. cbn. rewrite Nat.add_0_r. auto.
  - cbn [for_each] in H. step H Hf.
    apply transfer_file_ret in Hf. destruct Hf as (v & tf & Hv & _ & Hf & ->).
    pose proof (frames_no_handle _ _ _ _ _ _ Hf) as Hnh.
    destruct (frames_ret _ _ _ _ _ _ _ Hf Hc) as (Fc & Fs & Fsink & Fshown & Ftitles).
    destruct (IH _ _ _ _ _ _ H Fc) as ((Ic & Is & Isink & Ishown & Ititles) & Ih & Iw).
    assert (Hfo : frames_of w p = v_frames v)
      by (unfold frames_of; rewrite Hv; reflexivity).
    cbn [flat_map]. rewrite Hfo.
    split; [|split].
    + unfold transferred.
      rewrite !sink_frames_app, !shown_frames_app, !titles_app.
      rewrite sink_frames_printed, shown_frames_printed, titles_printed.
      rewrite positions_where_app, !map_app.
      rewrite Fsink, Fshown, Ftitles, Isink, Ishown, Ititles. cbn.
      rewrite !app_nil_r. repeat split.
      * rewrite Ic, length_app. f_equal. lia.
      * congruence.
    + intros hs. rewrite !fold_left_app.
      rewrite (track_no_handle _ (no_handle_printed g _)). cbn [fold_left track].
      rewrite (track_no_handle _ Hnh). cbn [fold_left track].
      rewrite release_head. apply Ih.
    + rewrite !writer_configs_app, Iw.
      rewrite (writer_configs_no_handle _ (no_handle_printed g _)).
      rewrite (writer_configs_no_handle _ Hnh). reflexivity.
Qed.

End Loops.

(** ** The blocks of [process], when they run to their end *)

Section Blocks.

Variables (w : world) (g : globals).

Lemma negotiate_ret v n t n' fps :
  (match _framerate g with
   | Some f => if negb (truthy_float (Some f))
               then getitem "fps" (md_fps (v_meta v))
               else ret f
   | None => getitem "fps" (md_fps (v_meta v))
   end) n = (t, n', Ret fps) ->
  negotiated g v fps /\ t = [] /\ n' = n.
Proof.
  unfold negotiated. intros H. destruct (_framerate g) as [f|].
  - cbn [truthy_float] in H. rewrite negb_involutive in H.
    destruct (Qeq_bool f 0); [prim H | done H]; auto.
  - prim H. auto.
Qed.

Lemma probe_ret n t n' mp :
  probe w g n = (t, n', Ret mp) ->
  exists input0 rest v raw,
    _input_files g = input0 :: rest
    /\ get_reader_of w input0 = Some v
    /\ md_size (v_meta v) = Some (mp_size mp)
    /\ negotiated g v (mp_framerate mp)
    /\ md_pix_fmt (v_meta v) = Some raw
    /\ Re.search pix_fmt_pattern raw = Some (mp_pixelformat mp)
    /\ md_codec (v_meta v) = Some (mp_codec mp)
    /\ t = [OpenReader input0; CloseReader input0]
    /\ n' = n.
Proof.
  unfold probe, reader_close. intros H.
  stepv H Hi input0 ti. apply first_ret in Hi. destruct Hi as ((rest & Hi) & -> & ->).
  stepv H Hr v tr. stepv H Hs size ts. stepv H Hf fps tf.
  stepv H Hraw raw traw. stepv H Hpf pf tpf. stepv H Hc codec tc.
  step H Hcl. done Hcl. done H.
  exists input0, rest, v, raw. cbn [mp_size mp_framerate mp_pixelformat mp_codec].
  apply negotiate_ret in Hf. destruct Hf as (Hneg & -> & ->).
  repeat split; auto.
Qed.

Lemma announce_run mp n :
  announce g mp n
  = (printed g (parameter_lines mp)
     ++ (if truthy_int (_preview g) then [PreviewFigure] else []), n, Ret tt).
Proof.
  unfold announce, parameter_lines.
  repeat (erewrite bind_ret_run by apply iprint_run).
  unfold printed. destruct (truthy_int (_preview g)), (_quiet g); reflexivity.
Qed.

Lemma transfer_ret mp n t n' st :
  transfer w g mp n = (t, n', Ret st) ->
  exists tloop,
    for_each (_input_files g) (transfer_file w g (mp_framerate mp))
             {| total_image_count := 0; start_time := clock w n;
                last_status_time := clock w n |} (S n) = (tloop, n', Ret st)
    /\ t = [OpenWriter (_output_file g) (mp_framerate mp) OUTPUT_QUALITY
                       (mp_codec mp) (mp_pixelformat mp)]
           ++ tloop ++ printed g [LBlank] ++ [CloseWriter (_output_file g)].
Proof.
  unfold transfer, writer_close. intros H.
  step H Hc. done Hc. step H Hw. stepv H Hl st1 tloop.
  step H Hb. step H Hcl. done Hcl. done H.
  exists tloop. rewrite !app_nil_r. auto.
Qed.

Lemma summary_ret st n t n' u :
  summary w g st n = (t, n', Ret u) ->
  n' = S n
  /\ t = printed g (summary_lines (total_image_count st) (clock w n - start_time st)).
Proof.
  unfold summary, summary_lines. intros H.
  step H Hc. done Hc. step H H1. step H H2. step H H3. step H H4.
  rewrite iprint_run in H. done H.
  split; [reflexivity|]. unfold printed. destruct (_quiet g); reflexivity.
Qed.

(** A run of [process] that returns, as a whole. *)
Lemma process_ret n t n' st :
  process w g n = (t, n', Ret st) ->
  exists mp tp tloop nl,
    probe w g n = (tp, n, Ret mp)
    /\ for_each (_input_files g) (transfer_file w g (mp_framerate mp))
                {| total_image_count := 0; start_time := clock w n;
                   last_status_time := clock w n |} (S n) = (tloop, nl, Ret st)
    /\ n' = S nl
    /\ t = tp
           ++ (printed g (parameter_lines mp)
               ++ (if truthy_int (_preview g) then [PreviewFigure] else []))
           ++ ([OpenWriter (_output_file g) (mp_framerate mp) OUTPUT_QUALITY
                           (mp_codec mp) (mp_pixelformat mp)]
               ++ tloop ++ printed g [LBlank] ++ [CloseWriter (_output_file g)])
           ++ printed g (summary_lines (total_image_count st)
                                       (clock w nl - start_time st)).
Proof.
  unfold process. intros H.
  stepv H Hp mp tp. pose proof (probe_ret _ _ _ _ Hp) as Hn.
  destruct Hn as (_ & _ & _ & _ & _ & _ & _ & _ & _ & _ & _ & _ & ->).
  step H Ha. rewrite announce_run in Ha. done Ha.
  stepv H Ht st1 tt1. apply transfer_ret in Ht. destruct Ht as (tloop & Hl & ->).
  step H Hs. apply summary_ret in Hs. destruct Hs as (-> & ->). done H.
  exists mp, tp, tloop. eexists.
  split; [exact Hp|]. split; [exact Hl|]. split; [reflexivity|].
  rewrite !app_nil_r. reflexivity.
Qed.

End Blocks.

(** ** Events and exceptions of the blocks, whatever the outcome *)

Section Outcomes.

Variable w : world.

Lemma emits_get_reader P p : P (OpenReader p) -> emits P (get_reader w p).
Proof.
  intros HP. unfold get_reader. destruct (get_reader_of w p).
  - apply emits_bind; [apply emits_emit, HP | intros; apply emits_ret].
  - apply emits_raise.
Qed.

Lemma emits_get_writer P p fps q c pf :
  P (OpenWriter p fps q c pf) -> emits P (get_writer w p fps q c pf).
Proof.
  intros HP. unfold get_writer. destruct (writer_opens w p).
  - apply emits_emit, HP.
  - apply emits_raise.
Qed.

Lemma raises_iprint E g l : raises E (iprint g l).
Proof. intros n t n' e H. rewrite iprint_run in H. discriminate. Qed.

Lemma raises_get_reader E p : E SourceOpenError -> raises E (get_reader w p).
Proof.
  intros HE. unfold get_reader. destruct (get_reader_of w p).
  - apply raises_bind; [apply raises_emit | intros; apply raises_ret].
  - apply raises_raise, HE.
Qed.

Lemma raises_get_writer E p fps q c pf :
  E SinkOpenError -> raises E (get_writer w p fps q c pf).
Proof.
  intros HE. unfold get_writer. destruct (writer_opens w p).
  - apply raises_emit.
  - apply raises_raise, HE.
Qed.

Lemma raises_truediv E a b : E ZeroDivisionError -> raises E (truediv a b).
Proof.
  intros HE. unfold truediv. apply raises_if; [apply raises_raise, HE | apply raises_ret].
Qed.

Lemma raises_getitem {A} E key (o : option A) :
  E (KeyError key) -> raises E (getitem key o).
Proof. intros HE. destruct o; [apply raises_ret | apply raises_raise, HE]. Qed.

Lemma raises_group0 E o : E TypeError -> raises E (group0 o).
Proof. intros HE. destruct o; [apply raises_ret | apply raises_raise, HE]. Qed.

Lemma raises_first {A} E (xs : list A) : E IndexError -> raises E (first xs).
Proof. intros HE. destruct xs; [apply raises_raise, HE | apply raises_ret]. Qed.

End Outcomes.

Ltac emits_tac :=
  repeat first
    [ apply emits_bind; [|intros ?]
    | apply emits_ret
    | apply emits_raise
    | apply emits_truediv
    | apply emits_perf_counter
    | apply emits_getitem
    | apply emits_group0
    | apply emits_first
    | apply emits_assert
    | apply emits_for_each; intros ? ?
    | apply emits_emit; exact I
    | apply emits_iprint; intros; exact I
    | apply emits_append_data; exact I
    | apply emits_get_reader; exact I
    | apply emits_get_writer; exact I
    | apply emits_if
    | match goal with
      | |- emits _ (match ?x with _ => _ end) => destruct x
      end ].

Ltac raises_tac :=
  repeat first
    [ apply raises_bind; [|intros ?]
    | apply raises_ret
    | apply raises_emit
    | apply raises_perf_counter
    | apply raises_iprint
    | apply raises_get_reader; exact I
    | apply raises_get_writer; exact I
    | apply raises_truediv; exact I
    | apply raises_getitem; exact I
    | apply raises_group0; exact I
    | apply raises_first; exact I
    | apply raises_raise; exact I
    | apply raises_if
    | match goal with
      | |- raises _ (match ?x with _ => _ end) => destruct x
      end ].

Section OutcomesOfBlocks.

Variables (w : world) (g : globals).

Lemma probe_not_open_writer : emits not_open_writer (probe w g).
Proof. unfold probe, reader_close. emits_tac. Qed.

Lemma announce_no_handle mp : emits no_handle (announce g mp).
Proof. unfold announce. emits_tac. Qed.


Lemma transfer_file_not_open_writer fps p st :
  emits not_open_writer (transfer_file w g fps p st).
Proof.
  unfold transfer_file, for_frames, reader_close, transfer_frame,
    status_block, preview_block.
  emits_tac.
Qed.

Lemma probe_not_mid_stream : raises not_mid_stream (probe w g).
Proof. unfold probe, reader_close. raises_tac. Qed.

Lemma announce_not_mid_stream mp : raises not_mid_stream (announce g mp).
Proof. unfold announce. raises_tac. Qed.

Lemma summary_not_mid_stream st : raises not_mid_stream (summary w g st).
Proof. unfold summary. raises_tac. Qed.

End OutcomesOfBlocks.

(** ** Properties of a run that completes *)

Lemma preview_due_positive g P :
  _preview g = Some P -> 0 < P -> forall i, preview_due g i = (i mod P =? 0).
Proof.
  intros Hp HP i. unfold preview_due. rewrite Hp. cbn [truthy_int].
  destruct (Z.eqb_spec P 0); [lia | reflexivity].
Qed.

Lemma length_flat_map_sum {A B} (f : A -> list B) xs :
  List.length (flat_map f xs) = list_sum (map (fun x => List.length (f x)) xs).
Proof.
  induction xs as [|x xs IH]; [reflexivity|].
  cbn [flat_map map list_sum]. rewrite length_app, IH. reflexivity.
Qed.

Lemma process_transferred w g n t n' st :
  process w g n = (t, n', Ret st) ->
  exists mp tp,
    probe w g n = (tp, n, Ret mp)
    /\ transferred g (mp_framerate mp) (flat_map (frames_of w) (_input_files g))
                   0 {| total_image_count := 0; start_time := clock w n;
                        last_status_time := clock w n |} t st.
Proof.
  intros H. apply process_ret in H.
  destruct H as (mp & tp & tloop & nl & Hp & Hl & -> & ->).
  exists mp, tp. split; [exact Hp|].
  apply probe_ret in Hp.
  destruct Hp as (input0 & rest & v & raw & _ & _ & _ & _ & _ & _ & _ & -> & _).
  apply files_ret with (c := 0%nat) in Hl; [|reflexivity].
  destruct Hl as ((Hc & Hs & Hsink & Hshown & Htitles) & _ & _).
  unfold transferred.
  rewrite !sink_frames_app, !shown_frames_app, !titles_app.
  rewrite !sink_frames_printed, !shown_frames_printed, !titles_printed.
  rewrite Hsink, Hshown, Htitles.
  destruct (truthy_int (_preview g)); cbn; rewrite !app_nil_r; auto.
Qed.

(** C1. When [process] returns, the frames appended to the sink are the
    frames of the inputs, each input's frames in decode order and the inputs
    in the order of the input list: nothing is skipped, repeated or
    reordered. *)
Theorem process_preserves_frame_order w g n t n' st :
  process w g n = (t, n', Ret st) ->
  sink_frames t = flat_map (frames_of w) (_input_files g).
Proof.
  intros H. apply process_transferred in H.
  destruct H as (mp & tp & _ & _ & _ & Hsink & _). exact Hsink.
Qed.

Lemma process_preserves_frame_order_witness :
  process Demo.w Demo.g 0%nat = (Demo.trace, 5%nat, Ret Demo.final)
  /\ sink_frames Demo.trace = [Demo.fr 1; Demo.fr 2; Demo.fr 3].
Proof.
  assert (H : process Demo.w Demo.g 0%nat = (Demo.trace, 5%nat, Ret Demo.final))
    by (vm_compute; reflexivity).
  split; [exact H|].
  exact (process_preserves_frame_order Demo.w Demo.g 0%nat Demo.trace 5%nat Demo.final H).
Defined.

(** C2. When [process] returns, the frame counter is the sum of the frame
    counts of the inputs, and the run ends with the summary lines, whose rate
    is that counter divided by the time elapsed between the first reading of
    the clock (call [n]) and the last one (call [pred n']). Under the quiet
    flag [iprint] prints none of the lines. *)
Theorem process_counts_and_summarizes w g n t n' st :
  process w g n = (t, n', Ret st) ->
  let elapsed := (clock w (pred n') - clock w n)%Q in
  total_image_count st
  = Z.of_nat (list_sum (map (fun p => List.length (frames_of w p)) (_input_files g)))
  /\ exists t0,
      t = t0 ++ printed g [LDone; LTotalDuration elapsed;
                           LTotalCount (total_image_count st);
                           LRate (inject_Z (total_image_count st) / elapsed)%Q].
Proof.
  intros H elapsed. pose proof (process_transferred _ _ _ _ _ _ H) as Ht.
  destruct Ht as (mp & tp & _ & Hc & _).
  apply process_ret in H.
  destruct H as (mp' & tp' & tloop & nl & _ & Hl & -> & ->).
  apply files_ret with (c := 0%nat) in Hl; [|reflexivity].
  destruct Hl as ((_ & Hs & _) & _ & _). cbn [start_time] in Hs.
  split.
  - rewrite Hc. f_equal. apply length_flat_map_sum.
  - eexists. unfold elapsed. cbn [pred]. rewrite !app_assoc, <- Hs. reflexivity.
Qed.

Lemma process_counts_and_summarizes_witness :
  total_image_count Demo.final = 3
  /\ exists t0,
      Demo.trace = t0 ++ [Stdout LDone; Stdout (LTotalDuration (8 - 0));
                          Stdout (LTotalCount 3); Stdout (LRate (3 / (8 - 0)))].
Proof.
  assert (H : process Demo.w Demo.g 0%nat = (Demo.trace, 5%nat, Ret Demo.final))
    by (vm_compute; reflexivity).
  exact (process_counts_and_summarizes Demo.w Demo.g 0%nat Demo.trace 5%nat Demo.final H).
Defined.

(** C6. When [process] returns and a positive preview interval [P] is
    configured, the frames shown are exactly the frames whose 0-based position
    in the concatenation of all inputs is a multiple of [P], in order, and
    the titles carry that position and the position divided by the
    negotiated framerate. *)
Theorem preview_at_multiples w g n t n' st P :
  process w g n = (t, n', Ret st) ->
  _preview g = Some P ->
  0 < P ->
  let due := preview_positions P (flat_map (frames_of w) (_input_files g)) in
  shown_frames t = map snd due
  /\ exists mp tp,
      probe w g n = (tp, n, Ret mp)
      /\ titles t = map (title_of (mp_framerate mp)) due.
Proof.
  intros H Hp HP due. apply process_transferred in H.
  destruct H as (mp & tp & Hprobe & _ & _ & _ & Hshown & Htitles).
  assert (Hdue : positions_where (preview_due g) 0
                   (flat_map (frames_of w) (_input_files g)) = due).
  { apply positions_where_ext. intros i _. apply (preview_due_positive g P Hp HP). }
  rewrite Hdue in Hshown, Htitles.
  split; [exact Hshown|]. exists mp, tp. auto.
Qed.

Lemma preview_at_multiples_witness :
  shown_frames Demo.trace = [Demo.fr 1; Demo.fr 3]
  /\ exists mp tp,
      probe Demo.w Demo.g 0%nat = (tp, 0%nat, Ret mp)
      /\ titles Demo.trace
         = [(0, (inject_Z 0 / mp_framerate mp)%Q); (2, (inject_Z 2 / mp_framerate mp)%Q)].
Proof.
  assert (H : process Demo.w Demo.g 0%nat = (Demo.trace, 5%nat, Ret Demo.final))
    by (vm_compute; reflexivity).
  assert (Hp : _preview Demo.g = Some 2) by reflexivity.
  assert (HP : 0 < 2) by lia.
  exact (preview_at_multiples Demo.w Demo.g 0%nat Demo.trace 5%nat Demo.final 2 H Hp HP).
Defined.

(** ** Open handles at the end of a run *)

Section Handles.

Variables (w : world) (g : globals).

Lemma open_handles_no_handle t1 t2 :
  Forall no_handle t2 -> open_handles (t1 ++ t2) = open_handles t1.
Proof. intros H. rewrite open_handles_app. apply track_no_handle, H. Qed.

(** A file whose transfer raised a decode or encode error: its reader was
    opened and nothing was closed. *)
Lemma transfer_file_abort fps p st n t n' e :
  transfer_file w g fps p st n = (t, n', Exc e) ->
  mid_stream e ->
  forall hs, fold_left track t hs = HReader p :: hs.
Proof.
  unfold transfer_file. intros H He hs.
  apply bind_exc_inv in H. destruct H as [H | (t1 & n1 & u & t2 & H1 & H & ->)].
  { apply raises_iprint with (E := not_mid_stream) in H. destruct e; contradiction. }
  rewrite iprint_run in H1. done H1.
  apply bind_exc_inv in H. destruct H as [H | (t3 & n3 & v & t4 & H3 & H & ->)].
  { apply (raises_get_reader w not_mid_stream p I) in H. destruct e; contradiction. }
  prim H3.
  apply bind_exc_inv in H. destruct H as [H | (t5 & n5 & st1 & t6 & H5 & H & ->)].
  - assert (Hnh : Forall no_handle t4).
    { revert H. unfold for_frames. apply emits_bind.
      - apply frames_no_handle.
      - intros; apply emits_if; [apply emits_raise | apply emits_ret]. }
    rewrite !fold_left_app, (track_no_handle _ (no_handle_printed g _)).
    cbn [fold_left track]. apply track_no_handle, Hnh.
  - exfalso. revert H. unfold reader_close.
    intros H. apply bind_exc_inv in H.
    destruct H as [H | (? & ? & ? & ? & _ & H & _)]; inversion H.
Qed.

Lemma transfer_abort mp n t n' e :
  transfer w g mp n = (t, n', Exc e) ->
  mid_stream e ->
  exists p, In p (_input_files g)
            /\ forall hs, fold_left track t hs = HReader p :: HWriter (_output_file g) :: hs.
Proof.
  unfold transfer. intros H He.
  apply bind_exc_inv in H. destruct H as [H | (t1 & n1 & start & t2 & H1 & H & ->)];
    [inversion H|]. done H1.
  apply bind_exc_inv in H. destruct H as [H | (t3 & n3 & u & t4 & H3 & H & ->)].
  { apply (raises_get_writer w not_mid_stream _ _ _ _ _ I) in H.
    destruct e; contradiction. }
  prim H3.
  apply bind_exc_inv in H. destruct H as [H | (t5 & n5 & st1 & t6 & H5 & H & ->)].
  - apply for_each_exc_inv in H.
    destruct H as (ps1 & p & ps2 & u1 & m1 & s1 & u2 & Hps & Hdone & Hbody & ->).
    exists p. split; [rewrite Hps; apply in_elt|].
    intros hs. cbn [app fold_left track].
    apply files_ret with (c := 0%nat) in Hdone; [|reflexivity].
    destruct Hdone as (_ & Hbal & _).
    rewrite fold_left_app, Hbal.
    apply (transfer_file_abort _ _ _ _ _ _ _ Hbody He).
  - exfalso. revert H. unfold writer_close. intros H.
    assert (Hr : raises not_mid_stream
                   (iprint g LBlank ;; emit (CloseWriter (_output_file g)) ;; ret st1))
      by raises_tac.
    apply Hr in H. destruct e; contradiction.
Qed.

End Handles.


(** ** What a status line reports *)

Lemma status_lags_app fps k t1 t2 :
  status_lags fps k t1 ->
  status_lags fps (k + List.length (sink_frames t1)) t2 ->
  status_lags fps k (t1 ++ t2).
Proof.
  intros H1 H2 a d c s b Heq. apply app_eq_app in Heq.
  destruct Heq as (l & [(-> & Hb) | (-> & Hl)]).
  - destruct l as [|x l].
    + cbn [app] in Hb. rewrite app_nil_r in *.
      destruct (H2 [] d c s b (eq_sym Hb)) as (Hc & Hs).
      cbn [sink_frames flat_map List.length] in Hc. rewrite Nat.add_0_r in Hc. auto.
    + cbn [app] in Hb. inversion Hb; subst x b.
      exact (H1 a d c s l eq_refl).
  - destruct (H2 l d c s b Hl) as (Hc & Hs). split; [|exact Hs].
    rewrite sink_frames_app, length_app, Nat.add_assoc. exact Hc.
Qed.

Lemma status_lags_quiet fps k t : Forall not_status t -> status_lags fps k t.
Proof.
  intros Hall a d c s b ->. rewrite Forall_forall in Hall.
  destruct (Hall (Stdout (LStatus d c s))). apply in_elt.
Qed.

Lemma not_status_no_lines g ls :
  Forall (fun l => not_status (Stdout l)) ls -> Forall not_status (printed g ls).
Proof.
  intros H. unfold printed. destruct (_quiet g); [constructor|].
  apply Forall_map. exact H.
Qed.

Lemma sink_frames_no_media t : Forall no_media t -> sink_frames t = [].
Proof.
  induction 1 as [|e t He _ IH]; [reflexivity|].
  destruct e; try contradiction; exact IH.
Qed.

Section Status.

Variables (w : world) (g : globals) (framerate : Q).

Lemma status_block_lags now st n t n' last k :
  status_block g framerate now st n = (t, n', Ret last) ->
  total_image_count st = Z.of_nat k ->
  status_lags framerate (S k) t.
Proof.
  unfold status_block. intros H Hk.
  destruct (status_due g now (last_status_time st)).
  - step H Hd. step H Hp. done H. rewrite app_nil_r. cbn [app].
    unfold printed. destruct (_quiet g).
    + apply status_lags_quiet. constructor.
    + intros a d c s b Heq. destruct a as [|x a].
      * cbn [app map] in Heq. inversion Heq; subst.
        cbn [sink_frames flat_map List.length]. split; [lia | reflexivity].
      * cbn [app map] in Heq. inversion Heq. destruct a; discriminate.
  - done H. apply status_lags_quiet. constructor.
Qed.

Lemma preview_block_not_status f st : emits not_status (preview_block g framerate f st).
Proof. unfold preview_block. emits_tac. Qed.

Lemma transfer_frame_lags f st n t n' st' k :
  transfer_frame w g framerate f st n = (t, n', Ret st') ->
  total_image_count st = Z.of_nat k ->
  status_lags framerate k t.
Proof.
  unfold transfer_frame. intros H Hk.
  step H Ha. unfold append_data in Ha.
  destruct (append_ok w f); [|discriminate]. done Ha.
  step H Hc. done Hc.
  step H Hs. pose proof (status_block_lags _ _ _ _ _ _ _ Hs Hk) as Hlag.
  apply status_block_ret in Hs. destruct Hs as (-> & Hs1 & _).
  step H Hp. apply preview_block_not_status in Hp. done H.
  rewrite app_nil_r. cbn [app].
  apply (status_lags_app framerate k [AppendData f]).
  { apply status_lags_quiet. repeat constructor. }
  cbn [sink_frames flat_map app List.length]. rewrite Nat.add_1_r.
  apply status_lags_app; [exact Hlag|].
  apply status_lags_quiet, Hp.
Qed.

Lemma frames_lags fs :
  forall st n t n' st' k,
    for_each fs (transfer_frame w g framerate) st n = (t, n', Ret st') ->
    total_image_count st = Z.of_nat k ->
    status_lags framerate k t.
Proof.
  induction fs as [|f fs IH]; intros st n t n' st' k H Hk.
  - done H. apply status_lags_quiet. constructor.
  - cbn [for_each] in H. stepv H Hf st1 t1.
    pose proof (transfer_frame_lags _ _ _ _ _ _ _ Hf Hk) as Hlag.
    apply transfer_frame_ret in Hf. cbn zeta in Hf.
    destruct Hf as (-> & Hcount & _ & Hsink & _).
    apply status_lags_app; [exact Hlag|].
    rewrite Hsink. cbn [List.length]. rewrite Nat.add_1_r.
    apply (IH _ _ _ _ _ _ H). lia.
Qed.

Lemma files_lags ps :
  forall st n t n' st' k,
    for_each ps (transfer_file w g framerate) st n = (t, n', Ret st') ->
    total_image_count st = Z.of_nat k ->
    status_lags framerate k t.
Proof.
  induction ps as [|p ps IH]; intros st n t n' st' k H Hk.
  - done H. apply status_lags_quiet. constructor.
  - cbn [for_each] in H. stepv H Hf st1 t1.
    apply transfer_file_ret in Hf. destruct Hf as (v & tf & _ & _ & Hf & ->).
    pose proof (frames_lags _ _ _ _ _ _ _ Hf Hk) as Hlag.
    destruct (frames_ret w g framerate _ _ _ _ _ _ _ Hf Hk) as (Fc & _ & Fsink & _).
    assert (Hr : Forall not_status (printed g [LReading p]))
      by (apply not_status_no_lines; repeat constructor).
    assert (Hr0 : sink_frames (printed g [LReading p]) = [])
      by apply sink_frames_printed.
    apply status_lags_app.
    + apply status_lags_app; [apply status_lags_quiet, Hr|].
      rewrite Hr0. cbn [List.length]. rewrite Nat.add_0_r.
      apply (status_lags_app framerate k [OpenReader p]).
      { apply status_lags_quiet. repeat constructor. }
      cbn [sink_frames flat_map app List.length]. rewrite Nat.add_0_r.
      apply status_lags_app; [exact Hlag|].
      apply status_lags_quiet. repeat constructor.
    + rewrite !sink_frames_app, Hr0, Fsink. cbn [sink_frames flat_map app].
      rewrite app_nil_r. apply (IH _ _ _ _ _ _ H Fc).
Qed.

End Status.

Lemma process_lags w g n t n' st :
  process w g n = (t, n', Ret st) ->
  exists mp tp, probe w g n = (tp, n, Ret mp) /\ status_lags (mp_framerate mp) 0 t.
Proof.
  intros H. apply process_ret in H.
  destruct H as (mp & tp & tloop & nl & Hp & Hl & -> & ->).
  exists mp, tp. split; [exact Hp|].
  apply probe_ret in Hp.
  destruct Hp as (input0 & rest & v & raw & _ & _ & _ & _ & _ & _ & _ & -> & _).
  pose proof (files_lags w g (mp_framerate mp) _ _ _ _ _ _ 0%nat Hl eq_refl) as Hlag.
  assert (Hpre : Forall not_status
                   ([OpenReader input0; CloseReader input0]
                    ++ (printed g (parameter_lines mp)
                        ++ (if truthy_int (_preview g) then [PreviewFigure] else []))
                    ++ [OpenWriter (_output_file g) (mp_framerate mp) OUTPUT_QUALITY
                                   (mp_codec mp) (mp_pixelformat mp)])).
  { apply Forall_app; split; [repeat constructor|].
    apply Forall_app; split; [|repeat constructor].
    apply Forall_app; split.
    - apply not_status_no_lines. repeat constructor.
    - destruct (truthy_int (_preview g)); repeat constructor. }
  assert (Hpre0 : sink_frames
                   ([OpenReader input0; CloseReader input0]
                    ++ (printed g (parameter_lines mp)
                        ++ (if truthy_int (_preview g) then [PreviewFigure] else []))
                    ++ [OpenWriter (_output_file g) (mp_framerate mp) OUTPUT_QUALITY
                                   (mp_codec mp) (mp_pixelformat mp)]) = []).
  { rewrite !sink_frames_app, sink_frames_printed.
    destruct (truthy_int (_preview g)); reflexivity. }
  replace ([OpenReader input0; CloseReader input0]
           ++ (printed g (parameter_lines mp)
               ++ (if truthy_int (_preview g) then [PreviewFigure] else []))
           ++ ([OpenWriter (_output_file g) (mp_framerate mp) OUTPUT_QUALITY
                           (mp_codec mp) (mp_pixelformat mp)]
               ++ tloop ++ printed g [LBlank] ++ [CloseWriter (_output_file g)])
           ++ printed g (summary_lines (total_image_count st)
                                       (clock w nl - start_time st)))
    with (([OpenReader input0; CloseReader input0]
           ++ (printed g (parameter_lines mp)
               ++ (if truthy_int (_preview g) then [PreviewFigure] else []))
           ++ [OpenWriter (_output_file g) (mp_framerate mp) OUTPUT_QUALITY
                          (mp_codec mp) (mp_pixelformat mp)])
          ++ tloop
          ++ (printed g [LBlank] ++ [CloseWriter (_output_file g)]
              ++ printed g (summary_lines (total_image_count st)
                                          (clock w nl - start_time st))))
    by (rewrite <- !app_assoc; reflexivity).
  apply status_lags_app; [apply status_lags_quiet, Hpre|].
  rewrite Hpre0. cbn [List.length Nat.add].
  apply status_lags_app; [exact Hlag|].
  apply status_lags_quiet.
  apply Forall_app; split; [apply not_status_no_lines; repeat constructor|].
  apply Forall_app; split; [repeat constructor|].
  apply not_status_no_lines. repeat constructor.
Qed.

(** ** The whole program *)

Section Main.

Variable w : world.

Lemma parse_arguments_run a n :
  exists r,
    parse_arguments (Parsed a) n = ([], n, r)
    /\ (r = Exc AssertionError
        \/ (r = Ret (Some (globals_of a)) /\ framerate_checked a)).
Proof.
  unfold parse_arguments, framerate_checked, bind, assert.
  cbn [globals_of _input_files _framerate _preview truthy_float truthy_int].
  destruct (0 <? Z.of_nat (List.length (Args.inputs a)));
    [|eexists; split; [reflexivity | left; reflexivity]].
  destruct (Args.framerate a) as [f|]; cbn [negb ret raise].
  - destruct (Qeq_bool f 0) eqn:Hz; cbn [negb ret raise].
    + destruct (Args.preview a) as [p|]; cbn [ret raise app];
        [destruct (negb (p =? 0)); cbn [ret raise app];
         [destruct (0 <? p); cbn [ret raise app]|]|];
        eexists; (split; [reflexivity|]); auto.
    + destruct (Qltb 0 f) eqn:Hpos; cbn [ret raise app];
        [|eexists; split; [reflexivity | left; reflexivity]].
      destruct (Args.preview a) as [p|]; cbn [ret raise app];
        [destruct (negb (p =? 0)); cbn [ret raise app];
         [destruct (0 <? p); cbn [ret raise app]|]|];
        eexists; (split; [reflexivity|]); auto.
  - destruct (Args.preview a) as [p|]; cbn [ret raise app];
      [destruct (negb (p =? 0)); cbn [ret raise app];
       [destruct (0 <? p); cbn [ret raise app]|]|];
      eexists; (split; [reflexivity|]); auto.
Qed.

Lemma check_inputs_no_media g ps : emits no_media (check_inputs w g ps).
Proof.
  induction ps as [|p ps IH]; cbn [check_inputs]; unfold eprint.
  - apply emits_ret.
  - emits_tac; exact IH.
Qed.

Lemma check_files_no_media g : emits no_media (check_files w g).
Proof.
  unfold check_files, check_output_dir, eprint.
  apply emits_bind; [emits_tac|intros ?].
  apply emits_bind; [apply check_inputs_no_media|intros ?].
  emits_tac.
Qed.

Lemma check_inputs_returns g ps : raises os_error (check_inputs w g ps).
Proof.
  induction ps as [|p ps IH]; cbn [check_inputs]; unfold eprint, Path_is_file.
  - apply raises_ret.
  - raises_tac; exact IH.
Qed.

Lemma check_files_returns g : raises os_error (check_files w g).
Proof.
  unfold check_files, check_output_dir, eprint, Path_is_file, Path_exists.
  apply raises_bind; [raises_tac|intros ?].
  apply raises_bind; [apply check_inputs_returns|intros ?].
  raises_tac.
Qed.

(** [check_files] refuses an existing output file without [-w]. *)
Lemma check_files_true g n t n' :
  check_files w g n = (t, n', Ret true) ->
  path_exists w (_output_file g) = true -> _overwrite g = true.
Proof.
  unfold check_files, eprint. intros H Hex.
  step H H1. stepv H H2 ok t2. destruct ok; cbn [negb] in H; [|done H].
  step H H3. step H H4. stepv H H5 there t5.
  unfold Path_exists in H5. destruct (stat_fails w (_output_file g)); [discriminate|].
  inversion H5; subst. rewrite Hex in H.
  destruct (_overwrite g); [reflexivity|]. cbn [negb] in H.
  step H H6. done H.
Qed.

(** Either the program stops with status 1 before touching any input or
    the output, or it reaches [process] with checked arguments. *)
Lemma main_run a n t n' r :
  main w (Parsed a) n = (t, n', r) ->
  (Forall no_media t /\ exit_code r = 1)
  \/ (exists tpre tproc n0 rp,
        t = tpre ++ tproc
        /\ Forall no_media tpre
        /\ process w (globals_of a) n0 = (tproc, n', rp)
        /\ framerate_checked a
        /\ (path_exists w (Args.output a) = true -> Args.overwrite a = true)
        /\ exit_code r = exit_code rp).
Proof.
  unfold main. intros H.
  destruct (parse_arguments_run a n) as (rp & Hp & Hr).
  apply bind_inv in H. rewrite Hp in H.
  destruct H as [(e & H & ->) | (t1 & n1 & og & t2 & H1 & H & ->)].
  { done H. destruct Hr as [Hr | (Hr & _)]; [|discriminate].
    inversion Hr; subst. left. split; [constructor | reflexivity]. }
  done H1. destruct Hr as [Hr | (Hr & Hfr)]; [discriminate|].
  inversion Hr; subst og. clear Hr. cbn [app].
  apply bind_inv in H. destruct H as [(e & H & ->) | (t3 & n3 & u3 & t4 & H3 & H & ->)].
  { apply raises_iprint with (E := fun _ => False) in H. contradiction. }
  apply bind_inv in H. destruct H as [(e & H & ->) | (t5 & n5 & u5 & t6 & H5 & H & ->)].
  { apply raises_iprint with (E := fun _ => False) in H. contradiction. }
  rewrite iprint_run in H3, H5. done H3. done H5.
  apply bind_inv in H. destruct H as [(e & H & ->) | (t7 & n7 & ok & t8 & H7 & H & ->)].
  { left. pose proof (check_files_no_media _ _ _ _ _ H) as Hnm.
    apply check_files_returns in H. split.
    - rewrite app_assoc, <- printed_app. apply Forall_app. split; [|exact Hnm].
      unfold printed. destruct (_quiet (globals_of a)); repeat constructor.
    - destruct e; try contradiction; reflexivity. }
  pose proof (check_files_no_media _ _ _ _ _ H7) as Hnm.
  assert (Hpre : Forall no_media
                   (printed (globals_of a) [LVersion VERSION]
                    ++ printed (globals_of a) [LBlank] ++ t7)).
  { rewrite app_assoc, <- printed_app. apply Forall_app. split; [|exact Hnm].
    unfold printed. destruct (_quiet (globals_of a)); repeat constructor. }
  destruct ok; cbn [negb] in H.
  - right. pose proof (check_files_true _ _ _ _ H7) as Hout.
    apply bind_inv in H.
    destruct H as [(e & H & ->) | (t9 & n9 & st & t10 & H9 & H & ->)].
    + exists (printed (globals_of a) [LVersion VERSION]
              ++ printed (globals_of a) [LBlank] ++ t7), t8, n7, (Exc e).
      rewrite <- !app_assoc. repeat split; auto.
    + done H. exists (printed (globals_of a) [LVersion VERSION]
              ++ printed (globals_of a) [LBlank] ++ t7), t9, n7, (Ret st).
      rewrite <- !app_assoc, app_nil_r. repeat split; auto.
  - left. done H. rewrite app_nil_r. split; [exact Hpre | reflexivity].
Qed.

End Main.

(** ** The parameters the writer is opened with *)



Lemma no_media_not_open_writer t : Forall no_media t -> Forall not_open_writer t.
Proof. apply Forall_impl. intros e; destruct e; cbn; auto. Qed.



Section WriterConfig.

Variables (w : world) (g : globals).



End WriterConfig.

(** C8. When the output path exists and overwriting is not permitted, the
    program ends with exit status 1 and has opened no reader and no writer
    and appended nothing: the existing file is untouched. *)
Theorem existing_output_aborts_before_processing w a n t n' r :
  main w (Parsed a) n = (t, n', r) ->
  path_exists w (Args.output a) = true ->
  Args.overwrite a = false ->
  exit_code r = 1 /\ Forall no_media t.
Proof.
  intros H Hex Hov. apply main_run in H.
  destruct H as [(Hnm & Hcode) | (tpre & tproc & n0 & rp & _ & _ & _ & _ & Hout & _)].
  - auto.
  - rewrite (Hout Hex) in Hov. discriminate.
Qed.

Lemma existing_output_aborts_before_processing_witness :
  exists t n',
    main Demo.w (Parsed Demo.args_old) 0%nat = (t, n', Exc (SystemExit 1))
    /\ exit_code (@Exc unit (SystemExit 1)) = 1 /\ Forall no_media t.
Proof.
  eexists. exists 0%nat.
  assert (H : main Demo.w (Parsed Demo.args_old) 0%nat
              = ([Stdout (LVersion VERSION); Stdout LBlank; Stdout LInputFiles;
                  Stdout (LInputFile "a.mp4"); Stdout (LInputFile "b.mp4");
                  Stdout LBlank; Stdout (LOutputFile "old.mp4");
                  Stderr (OutputExists "old.mp4")], 0%nat, Exc (SystemExit 1)))
    by (vm_compute; reflexivity).
  split; [exact H|].
  exact (existing_output_aborts_before_processing Demo.w Demo.args_old 0%nat _ _ _ H
           eq_refl eq_refl).
Defined.

(** ** The pixel-format token *)

(** C10. When the raw pixel-format string of the first input does not begin
    with an alphanumeric character, the search finds no match and [process]
    ends in an uncaught [TypeError] right there: the probing reader has been
    opened and nothing else has happened. *)
Theorem non_alnum_pixel_format_raises_type_error w g n input0 rest v size raw :
  _input_files g = input0 :: rest ->
  get_reader_of w input0 = Some v ->
  md_size (v_meta v) = Some size ->
  (truthy_float (_framerate g) = true \/ md_fps (v_meta v) <> None) ->
  md_pix_fmt (v_meta v) = Some raw ->
  begins_alnum raw = false ->
  Re.search pix_fmt_pattern raw = None
  /\ process w g n = ([OpenReader input0], n, Exc TypeError).
Proof.
  intros Hi Hv Hsize Hfps Hraw Hb.
  pose proof (search_not_alnum raw Hb) as Hs. split; [exact Hs|].
  unfold process. apply bind_exc_run.
  assert (Hfr : exists f,
             (match _framerate g with
              | Some f => if negb (truthy_float (Some f))
                          then getitem "fps" (md_fps (v_meta v))
                          else ret f
              | None => getitem "fps" (md_fps (v_meta v))
              end) n = ([], n, Ret f)).
  { destruct (_framerate g) as [f|].
    - destruct (negb (truthy_float (Some f))) eqn:Ht.
      + destruct Hfps as [Hfps | Hfps]; [rewrite Hfps in Ht; discriminate|].
        destruct (md_fps (v_meta v)) as [f'|]; [exists f'; reflexivity | contradiction].
      + exists f; reflexivity.
    - destruct Hfps as [Hfps | Hfps]; [discriminate|].
      destruct (md_fps (v_meta v)) as [f'|]; [exists f'; reflexivity | contradiction]. }
  destruct Hfr as (f & Hfr).
  unfold probe. rewrite Hi.
  rewrite (bind_ret_run _ _ n [] n input0) by reflexivity.
  rewrite (bind_ret_run _ _ n [OpenReader input0] n v)
    by (unfold get_reader; rewrite Hv; reflexivity).
  rewrite (bind_ret_run _ _ n [] n size) by (rewrite Hsize; reflexivity).
  rewrite (bind_ret_run _ _ n [] n f) by exact Hfr.
  rewrite (bind_ret_run _ _ n [] n raw) by (rewrite Hraw; reflexivity).
  rewrite (bind_exc_run _ _ n [] n TypeError) by (rewrite Hs; reflexivity).
  reflexivity.
Qed.

Lemma non_alnum_pixel_format_raises_type_error_witness :
  Re.search pix_fmt_pattern "(tv)" = None
  /\ process Demo.odd Demo.g 0%nat = ([OpenReader "a.mp4"], 0%nat, Exc TypeError).
Proof.
  refine (non_alnum_pixel_format_raises_type_error Demo.odd Demo.g 0%nat
            "a.mp4" ["b.mp4"] _ (640, 480) "(tv)" eq_refl eq_refl eq_refl _ eq_refl eq_refl).
  right. discriminate.
Defined.

(** ** Status output *)

(** C4 on [-s -1]: with a negative status interval the program prints a
    status line after every frame, three lines within three milliseconds. *)
Theorem negative_status_interval_prints_status :
  Args.status Demo.args_negative_status = Some (-1)
  /\ main Demo.fast (Parsed Demo.args_negative_status) 0%nat = Demo.negative_status_run
  /\ snd Demo.negative_status_run = Ret tt
  /\ status_records (fst (fst Demo.negative_status_run))
     = [((clock Demo.fast 1 - clock Demo.fast 0)%Q, 0, (0 / 30)%Q);
        ((clock Demo.fast 2 - clock Demo.fast 0)%Q, 1, (1 / 30)%Q);
        ((clock Demo.fast 3 - clock Demo.fast 0)%Q, 2, (2 / 30)%Q)].
Proof. repeat split; vm_compute; reflexivity. Qed.

(** C5, as the code has it. In a run of [process] that returns, a status
    line gives as images processed one less than the number of frames
    appended to the sink before it (the frame just appended is not counted:
    the counter is incremented at the end of the loop body), and as video
    duration that count divided by the negotiated framerate. *)
Theorem status_reports_frames_before_current w g n t n' st t1 d c s t2 :
  process w g n = (t, n', Ret st) ->
  t = t1 ++ Stdout (LStatus d c s) :: t2 ->
  Z.of_nat (List.length (sink_frames t1)) = c + 1
  /\ exists mp tp,
      probe w g n = (tp, n, Ret mp)
      /\ s = (inject_Z c / mp_framerate mp)%Q.
Proof.
  intros H Heq. apply process_lags in H. destruct H as (mp & tp & Hp & Hlag).
  destruct (Hlag t1 d c s t2 Heq) as (Hc & Hs).
  split; [exact Hc|]. exists mp, tp. auto.
Qed.

(** On the demo run the first status line comes when one frame has been
    appended, and says [images_processed=0]. *)
Lemma status_reports_frames_before_current_witness :
  sink_frames (firstn 13 Demo.trace) = [Demo.fr 1]
  /\ Z.of_nat (List.length (sink_frames (firstn 13 Demo.trace))) = 0 + 1
  /\ exists mp tp,
      probe Demo.w Demo.g 0%nat = (tp, 0%nat, Ret mp)
      /\ (0 / 30)%Q = (inject_Z 0 / mp_framerate mp)%Q.
Proof.
  assert (H : process Demo.w Demo.g 0%nat = (Demo.trace, 5%nat, Ret Demo.final))
    by (vm_compute; reflexivity).
  assert (Heq : Demo.trace
                = firstn 13 Demo.trace
                  ++ Stdout (LStatus (2 - 0)%Q 0 (0 / 30)%Q) :: skipn 14 Demo.trace)
    by (vm_compute; reflexivity).
  split; [vm_compute; reflexivity|].
  exact (status_reports_frames_before_current Demo.w Demo.g 0%nat Demo.trace 5%nat
           Demo.final _ _ _ _ _ H Heq).
Defined.

(** ** Arguments and files *)

Lemma complaints_app t1 t2 : complaints (t1 ++ t2) = complaints t1 ++ complaints t2.
Proof. apply flat_map_app. Qed.

Lemma complaints_printed g ls : complaints (printed g ls) = [].
Proof.
  unfold printed. destruct (_quiet g); [reflexivity|].
  induction ls as [|l ls IH]; [reflexivity | exact IH].
Qed.

Lemma no_media_printed g ls : Forall no_media (printed g ls).
Proof.
  unfold printed. destruct (_quiet g); [constructor|].
  apply Forall_map, Forall_forall. intros; exact I.
Qed.

(** X1. For parsed arguments [parse_arguments] prints nothing and either
    returns [True], having assigned the globals, or fails an assertion; it
    returns exactly when there is an input, the framerate is absent, zero or
    positive and the preview interval is absent, zero or positive. Every
    status interval is let through. *)
Theorem parse_arguments_accepts a n :
  parse_arguments (Parsed a) n
  = ([], n, if args_valid a then Ret (Some (globals_of a)) else Exc AssertionError).
Proof.
  unfold parse_arguments, args_valid, bind, assert.
  cbn [globals_of _input_files _framerate _preview truthy_float truthy_int].
  destruct (0 <? Z.of_nat (List.length (Args.inputs a))); [|reflexivity].
  cbn [andb ret raise].
  destruct (Args.framerate a) as [f|].
  - destruct (Qeq_bool f 0); cbn [negb orb andb ret raise app].
    + destruct (Args.preview a) as [p|]; [|reflexivity].
      destruct (p =? 0); cbn [negb orb ret raise app]; [reflexivity|].
      destruct (0 <? p); reflexivity.
    + destruct (Qltb 0 f); cbn [andb ret raise app]; [|reflexivity].
      destruct (Args.preview a) as [p|]; [|reflexivity].
      destruct (p =? 0); cbn [negb orb ret raise app]; [reflexivity|].
      destruct (0 <? p); reflexivity.
  - destruct (Args.preview a) as [p|]; [|reflexivity].
    destruct (p =? 0); cbn [negb orb ret raise app]; [reflexivity|].
    destruct (0 <? p); reflexivity.
Qed.

Lemma bind_ret_left {A B} (a : A) (k : A -> M B) n : bind (ret a) k n = k a n.
Proof. unfold bind, ret. destruct (k a n) as [[t2 n2] r2]. reflexivity. Qed.

Lemma bind_raise_left {A B} e (k : A -> M B) n : bind (raise e) k n = ([], n, Exc e).
Proof. reflexivity. Qed.

Section Files.

Variable w : world.

Lemma Path_is_file_run p n :
  Path_is_file w p n
  = if stat_fails w p then ([], n, Exc OSError) else ([], n, Ret (is_file w p)).
Proof. unfold Path_is_file. destruct (stat_fails w p); reflexivity. Qed.

Lemma Path_exists_run p n :
  Path_exists w p n
  = if stat_fails w p then ([], n, Exc OSError) else ([], n, Ret (path_exists w p)).
Proof. unfold Path_exists. destruct (stat_fails w p); reflexivity. Qed.

Lemma check_inputs_outcome g ps n :
  exists t r,
    check_inputs w g ps n = (t, n, r)
    /\ Forall no_media t
    /\ match r with
       | Ret b => b = inputs_ok w ps
                  /\ List.length (complaints t) = (if b then 0 else 1)%nat
       | Exc e => e = OSError /\ complaints t = []
                  /\ exists p, In p ps /\ stat_fails w p = true
       end.
Proof.
  induction ps as [|p ps IH].
  - exists [], (Ret true). repeat split. constructor.
  - destruct IH as (t' & r' & Hrun & Hnm & Hr).
    cbn [check_inputs inputs_ok forallb].
    rewrite (bind_ret_run _ _ _ _ _ _ (iprint_run g _ n)).
    destruct (stat_fails w p) eqn:Hst.
    { assert (E : Path_is_file w p n = ([], n, Exc OSError))
        by (rewrite Path_is_file_run, Hst; reflexivity).
      rewrite (bind_exc_run _ _ _ _ _ _ E).
      eexists. exists (Exc OSError). split; [reflexivity|]. rewrite app_nil_r.
      split; [apply no_media_printed|].
      split; [reflexivity|]. split; [apply complaints_printed|].
      exists p. split; [left; reflexivity | exact Hst]. }
    assert (E : Path_is_file w p n = ([], n, Ret (is_file w p)))
      by (rewrite Path_is_file_run, Hst; reflexivity).
    rewrite (bind_ret_run _ _ _ _ _ _ E). cbn [app].
    destruct (is_file w p); cbn [negb andb].
    + destruct (access_r w p); cbn [negb andb].
      * fold (inputs_ok w ps). rewrite Hrun. eexists. exists r'.
        split; [reflexivity|].
        split; [apply Forall_app; split; [apply no_media_printed | exact Hnm]|].
        rewrite complaints_app, complaints_printed. cbn [app].
        destruct r' as [b|e]; [exact Hr|].
        destruct Hr as (He & Hc & q & Hq & Hsq).
        split; [exact He|]. split; [exact Hc|]. exists q. split; [right; exact Hq | exact Hsq].
      * eexists. exists (Ret false). split; [reflexivity|]. cbn [app].
        split; [apply Forall_app; split; [apply no_media_printed | repeat constructor]|].
        rewrite complaints_app, complaints_printed. split; reflexivity.
    + eexists. exists (Ret false). split; [reflexivity|]. cbn [app].
      split; [apply Forall_app; split; [apply no_media_printed | repeat constructor]|].
      rewrite complaints_app, complaints_printed. split; reflexivity.
Qed.

Lemma check_output_dir_run g n :
  exists t,
    check_output_dir w g n
    = (t, n, Ret (access_w w (parent w (_output_file g))))
    /\ Forall no_media t
    /\ List.length (complaints t)
       = (if access_w w (parent w (_output_file g)) then 0 else 1)%nat.
Proof.
  unfold check_output_dir.
  destruct (access_w w (parent w (_output_file g))); cbn [negb].
  - rewrite (bind_ret_run _ _ _ _ _ _ (iprint_run g _ n)).
    eexists. split; [reflexivity|]. rewrite app_nil_r.
    split; [apply no_media_printed | rewrite complaints_printed; reflexivity].
  - eexists. split; [reflexivity|]. split; [repeat constructor | reflexivity].
Qed.

(** X2. [check_files] reads no clock and touches no input and no output. It
    either returns, [True] exactly when every input is a readable file, the
    output path is free or is a file that may be overwritten, and the
    directory of the output is writable, and then with exactly one complaint
    on the error stream when it returns [False] and none otherwise; or it
    leaves by the [OSError] of a [Path.is_file()] or [Path.exists()] that
    fails on one of its paths, and then no complaint has been written. *)
Theorem check_files_result g n :
  exists t r,
    check_files w g n = (t, n, r)
    /\ Forall no_media t
    /\ match r with
       | Ret b => b = files_ok w g
                  /\ List.length (complaints t) = (if b then 0 else 1)%nat
       | Exc e => e = OSError /\ complaints t = []
                  /\ exists p, (In p (_input_files g) \/ p = _output_file g)
                               /\ stat_fails w p = true
       end.
Proof.
  unfold check_files, files_ok.
  destruct (check_inputs_outcome g (_input_files g) n) as (ti & ri & Hi & Hnmi & Hri).
  destruct (check_output_dir_run g n) as (td & Hd & Hnmd & Hcd).
  rewrite (bind_ret_run _ _ _ _ _ _ (iprint_run g _ n)).
  destruct ri as [ok | e].
  2:{ rewrite (bind_exc_run _ _ _ _ _ _ Hi).
      destruct Hri as (-> & Hc & p & Hp & Hsp).
      eexists. exists (Exc OSError). split; [reflexivity|].
      split; [apply Forall_app; split; [apply no_media_printed | exact Hnmi]|].
      split; [reflexivity|].
      split; [rewrite complaints_app, complaints_printed; exact Hc|].
      exists p. auto. }
  destruct Hri as (-> & Hci).
  rewrite (bind_ret_run _ _ _ _ _ _ Hi).
  destruct (inputs_ok w (_input_files g)); cbn [negb andb].
  2:{ eexists. exists (Ret false). split; [reflexivity|]. cbn [app]. rewrite app_nil_r.
      split; [apply Forall_app; split; [apply no_media_printed | exact Hnmi]|].
      split; [reflexivity|]. rewrite complaints_app, complaints_printed. exact Hci. }
  apply length_zero_iff_nil in Hci.
  rewrite (bind_ret_run _ _ _ _ _ _ (iprint_run g _ n)).
  rewrite (bind_ret_run _ _ _ _ _ _ (iprint_run g _ n)).
  destruct (stat_fails w (_output_file g)) eqn:Hst.
  { assert (E : Path_exists w (_output_file g) n = ([], n, Exc OSError))
      by (rewrite Path_exists_run, Hst; reflexivity).
    rewrite (bind_exc_run _ _ _ _ _ _ E).
    eexists. exists (Exc OSError). split; [reflexivity|].
    split; [repeat (apply Forall_app; split); auto using no_media_printed; constructor|].
    split; [reflexivity|].
    split; [rewrite !complaints_app, !complaints_printed, Hci; reflexivity|].
    exists (_output_file g). auto. }
  assert (E : Path_exists w (_output_file g) n
              = ([], n, Ret (path_exists w (_output_file g))))
    by (rewrite Path_exists_run, Hst; reflexivity).
  rewrite (bind_ret_run _ _ _ _ _ _ E). cbn [app].
  destruct (path_exists w (_output_file g)).
  - destruct (_overwrite g); cbn [negb andb].
    + assert (E' : Path_is_file w (_output_file g) n
                   = ([], n, Ret (is_file w (_output_file g))))
        by (rewrite Path_is_file_run, Hst; reflexivity).
      rewrite (bind_ret_run _ _ _ _ _ _ E'). cbn [app].
      destruct (is_file w (_output_file g)); cbn [negb andb].
      * rewrite Hd. eexists. eexists. split; [reflexivity|]. split.
        -- repeat (apply Forall_app; split); auto using no_media_printed.
        -- split; [reflexivity|].
           rewrite !complaints_app, !complaints_printed, Hci. exact Hcd.
      * eexists. exists (Ret false). split; [reflexivity|]. split.
        -- repeat (apply Forall_app; split); auto using no_media_printed.
           repeat constructor.
        -- split; [reflexivity|].
           rewrite !complaints_app, !complaints_printed, Hci. reflexivity.
    + eexists. exists (Ret false). split; [reflexivity|]. split.
      * repeat (apply Forall_app; split); auto using no_media_printed.
        repeat constructor.
      * split; [reflexivity|].
        rewrite !complaints_app, !complaints_printed, Hci. reflexivity.
  - rewrite Hd. eexists. eexists. split; [reflexivity|]. split.
    + repeat (apply Forall_app; split); auto using no_media_printed.
    + split; [reflexivity|].
      rewrite !complaints_app, !complaints_printed, Hci. exact Hcd.
Qed.

End Files.

(** ** The three ways through [main] *)

Lemma no_media_no_handle t : Forall no_media t -> Forall no_handle t.
Proof. apply Forall_impl. intros e; destruct e; cbn; auto. Qed.

Lemma complaints_no_stderr t :
  Forall (fun e => match e with Stderr _ => False | _ => True end) t -> complaints t = [].
Proof.
  induction 1 as [|e t He _ IH]; [reflexivity|].
  destruct e; try contradiction; exact IH.
Qed.

Lemma main_cases w a n t n' r :
  main w (Parsed a) n = (t, n', r) ->
  let g := globals_of a in
  (args_valid a = false /\ t = [] /\ n' = n /\ r = Exc AssertionError)
  \/ (args_valid a = true /\ Forall no_media t /\ n' = n
      /\ ((files_ok w g = false /\ List.length (complaints t) = 1%nat
           /\ r = Exc (SystemExit 1))
          \/ (complaints t = [] /\ r = Exc OSError
              /\ exists p, (In p (_input_files g) \/ p = _output_file g)
                           /\ stat_fails w p = true)))
  \/ (args_valid a = true /\ files_ok w g = true
      /\ exists tpre tproc rp,
          t = tpre ++ tproc
          /\ Forall no_media tpre
          /\ complaints tpre = []
          /\ process w g n = (tproc, n', rp)
          /\ r = match rp with Ret _ => Ret tt | Exc e => Exc e end).
Proof.
  intros H g. unfold main in H.
  pose proof (parse_arguments_accepts a n) as Hp.
  destruct (args_valid a).
  - rewrite (bind_ret_run _ _ _ _ _ _ Hp) in H.
    rewrite (bind_ret_run _ _ _ _ _ _ (iprint_run _ _ n)) in H.
    rewrite (bind_ret_run _ _ _ _ _ _ (iprint_run _ _ n)) in H.
    destruct (check_files_result w (globals_of a) n) as (tc & rc & Hc & Hnm & Hrc).
    fold g in H, Hc, Hnm, Hrc |- *. right.
    destruct rc as [ok | e].
    + destruct Hrc as (-> & Hcc).
      rewrite (bind_ret_run _ _ _ _ _ _ Hc) in H.
      destruct (files_ok w g); cbn [negb] in H.
      * right. split; [reflexivity|]. split; [reflexivity|].
        destruct (process w g n) as [[tp np] rp] eqn:Hproc.
        exists (printed g [LVersion VERSION] ++ printed g [LBlank] ++ tc), tp, rp.
        assert (Hrun : (process w g ;; ret tt) n
                       = (tp ++ (match rp with Ret _ => [] | Exc _ => [] end), np,
                          match rp with Ret _ => Ret tt | Exc e => Exc e end)).
        { unfold bind. rewrite Hproc. destruct rp; [|rewrite app_nil_r]; reflexivity. }
        rewrite Hrun in H. cbn [app] in H. inversion H; subst.
        repeat split.
        -- destruct rp; rewrite ?app_nil_r, <- ?app_assoc; reflexivity.
        -- repeat (apply Forall_app; split); auto using no_media_printed.
        -- rewrite !complaints_app, !complaints_printed.
           cbn [app]. exact (proj1 (length_zero_iff_nil _) Hcc).
      * left. cbn in H. inversion H; subst. rewrite !app_nil_r.
        split; [reflexivity|].
        split; [repeat (apply Forall_app; split); auto using no_media_printed|].
        split; [reflexivity|]. left. split; [reflexivity|].
        split; [|reflexivity].
        rewrite !complaints_app, !complaints_printed. exact Hcc.
    + destruct Hrc as (-> & Hcc & Hp').
      rewrite (bind_exc_run _ _ _ _ _ _ Hc) in H. cbn [app] in H.
      inversion H; subst. left.
      split; [reflexivity|].
      split; [repeat (apply Forall_app; split); auto using no_media_printed|].
      split; [reflexivity|]. right.
      split; [rewrite !complaints_app, !complaints_printed; exact Hcc|].
      split; [reflexivity | exact Hp'].
  - rewrite (bind_exc_run _ _ _ _ _ _ Hp) in H. inversion H; subst. left. auto.
Qed.

(** X3. Arguments that fail an assertion end the program at once: nothing
    has been printed by the program, checked or opened, and the uncaught
    [AssertionError] gives exit status 1. *)
Theorem invalid_arguments_stop_silently w a n :
  args_valid a = false ->
  main w (Parsed a) n = ([], n, Exc AssertionError)
  /\ exit_code (@Exc unit AssertionError) = 1.
Proof.
  intros Hv. split; [|reflexivity].
  unfold main. apply bind_exc_run.
  rewrite parse_arguments_accepts, Hv. reflexivity.
Qed.

Lemma invalid_arguments_stop_silently_witness :
  main Demo.w (Parsed More.args_negative_framerate) 0%nat = ([], 0%nat, Exc AssertionError)
  /\ exit_code (@Exc unit AssertionError) = 1.
Proof.
  exact (invalid_arguments_stop_silently Demo.w More.args_negative_framerate 0%nat eq_refl).
Defined.

(** X4. When the file checks fail (an input that is missing or unreadable,
    an output that exists without [-w] or is not a file, an output directory
    that is not writable), the program ends with exit status 1 without having
    opened any input or the output. If the arguments passed their assertions
    it ends by [sys.exit(1)] after exactly one complaint on the error stream
    or, when a [Path.is_file()] or [Path.exists()] raises [OSError] first, by
    that uncaught exception without a complaint of its own. *)
Theorem failed_file_checks_stop_before_processing w a n t n' r :
  main w (Parsed a) n = (t, n', r) ->
  files_ok w (globals_of a) = false ->
  exit_code r = 1
  /\ Forall no_media t
  /\ (args_valid a = true ->
      (r = Exc (SystemExit 1) /\ List.length (complaints t) = 1%nat)
      \/ (r = Exc OSError /\ complaints t = []
          /\ exists p, (In p (Args.inputs a) \/ p = Args.output a)
                       /\ stat_fails w p = true)).
Proof.
  intros H Hf. apply main_cases in H. cbn zeta in H.
  destruct H as [(Hv & -> & _ & ->) | [(Hv & Hnm & _ & Hc) | (_ & Hok & _)]].
  - repeat split; [constructor | rewrite Hv; discriminate].
  - destruct Hc as [(_ & Hc & ->) | (Hc & -> & Hp)].
    + repeat split; auto.
    + repeat split; auto.
  - rewrite Hok in Hf. discriminate.
Qed.

Lemma failed_file_checks_stop_before_processing_witness :
  (exists t,
      main Demo.w (Parsed More.args_missing) 0%nat = (t, 0%nat, Exc (SystemExit 1))
      /\ Forall no_media t
      /\ complaints t = [InputMissing "c.mp4"])
  /\ (exists t,
         main More.unstat (Parsed More.args_missing) 0%nat = (t, 0%nat, Exc OSError)
         /\ exit_code (@Exc unit OSError) = 1
         /\ Forall no_media t
         /\ complaints t = []).
Proof.
  split.
  2:{ eexists.
      assert (H : main More.unstat (Parsed More.args_missing) 0%nat
                  = ([Stdout (LVersion VERSION); Stdout LBlank; Stdout LInputFiles;
                      Stdout (LInputFile "a.mp4"); Stdout (LInputFile "c.mp4")],
                     0%nat, Exc OSError))
        by (vm_compute; reflexivity).
      split; [exact H|].
      destruct (failed_file_checks_stop_before_processing
                  More.unstat More.args_missing 0%nat _ _ _ H eq_refl) as (Hc & Hnm & _).
      split; [exact Hc|]. split; [exact Hnm | reflexivity]. }
  eexists.
  assert (H : main Demo.w (Parsed More.args_missing) 0%nat
              = ([Stdout (LVersion VERSION); Stdout LBlank; Stdout LInputFiles;
                  Stdout (LInputFile "a.mp4"); Stdout (LInputFile "c.mp4");
                  Stderr (InputMissing "c.mp4")], 0%nat, Exc (SystemExit 1)))
    by (vm_compute; reflexivity).
  split; [exact H|].
  split; [|reflexivity].
  exact (proj1 (proj2 (failed_file_checks_stop_before_processing
                         Demo.w More.args_missing 0%nat _ _ _ H eq_refl))).
Defined.

(** ** Exit status *)

Ltac raises_all :=
  repeat first
    [ apply raises_for_each; intros ? ?
    | progress raises_tac ].

Lemma process_runtime_errors w g : raises runtime_error (process w g).
Proof.
  unfold process, probe, announce, transfer, transfer_file, for_frames,
    transfer_frame, status_block, preview_block, summary, reader_close,
    writer_close, append_data.
  raises_all.
Qed.

Lemma process_no_complaints w g :
  emits (fun e => match e with Stderr _ => False | _ => True end) (process w g).
Proof.
  unfold process, probe, announce, transfer, transfer_file, for_frames,
    transfer_frame, status_block, preview_block, summary, reader_close,
    writer_close.
  emits_tac.
Qed.

Lemma process_ret_handles w g n t n' st :
  process w g n = (t, n', Ret st) -> forall hs, fold_left track t hs = hs.
Proof.
  intros H hs. apply process_ret in H.
  destruct H as (mp & tp & tloop & nl & Hp & Hl & -> & ->).
  apply probe_ret in Hp.
  destruct Hp as (input0 & rest & v & raw & _ & _ & _ & _ & _ & _ & _ & -> & _).
  apply files_ret with (c := 0%nat) in Hl; [|reflexivity].
  destruct Hl as (_ & Hbal & _).
  rewrite !fold_left_app.
  rewrite (track_no_handle _ (no_handle_printed g _)).
  cbn [fold_left track]. rewrite release_head.
  rewrite (track_no_handle (printed g (parameter_lines mp)) (no_handle_printed g _)).
  assert (Hfig : forall hs',
             fold_left track (if truthy_int (_preview g) then [PreviewFigure] else []) hs' = hs')
    by (intros; destruct (truthy_int (_preview g)); reflexivity).
  rewrite Hfig. cbn [fold_left track]. rewrite Hbal.
  rewrite (track_no_handle _ (no_handle_printed g _)).
  cbn [fold_left track]. apply release_head.
Qed.

Lemma print_help_run text n :
  for_each text (fun l (_ : unit) => emit (Stdout (LText l))) tt n
  = (map (fun l => Stdout (LText l)) text, n, Ret tt).
Proof.
  induction text as [|l text IH]; [reflexivity|].
  cbn [for_each map]. unfold bind at 1. cbn [emit]. rewrite IH. reflexivity.
Qed.

Lemma main_help w text n :
  main w (Help text) n = (map (fun l => Stdout (LText l)) text, n, Exc (SystemExit 0)).
Proof.
  unfold main, parse_arguments.
  assert (E : (for_each text (fun l (_ : unit) => emit (Stdout (LText l))) tt ;;
               @sys_exit (option globals) 0) n
              = (map (fun l => Stdout (LText l)) text, n, Exc (SystemExit 0))).
  { rewrite (bind_ret_run _ _ _ _ _ _ (print_help_run text n)).
    cbn. rewrite app_nil_r. reflexivity. }
  exact (bind_exc_run _ _ _ _ _ _ E).
Qed.

Lemma main_rejected w message n :
  main w (Rejected message) n = ([Stderr (Usage message)], n, Exc (SystemExit 2)).
Proof. reflexivity. Qed.

Lemma main_argument_error w err n :
  main w (ArgumentError err) n = ([Stdout (LText err)], n, Exc (SystemExit 1)).
Proof. reflexivity. Qed.



(** X6. Exit status 0 means one of two things. Either [argparse] printed the
    help, and then nothing else has happened; or the whole job was done: the
    arguments and the file checks passed, nothing was written to the error
    stream, the sink received the frames of all inputs in order, and every
    reader and the writer have been closed. *)
Theorem exit_zero_means_help_or_complete w p n t n' r :
  main w p n = (t, n', r) ->
  exit_code r = 0 ->
  (exists text, p = Help text /\ t = map (fun l => Stdout (LText l)) text)
  \/ (exists a,
        p = Parsed a
        /\ r = Ret tt
        /\ args_valid a = true
        /\ files_ok w (globals_of a) = true
        /\ complaints t = []
        /\ sink_frames t = flat_map (frames_of w) (Args.inputs a)
        /\ open_handles t = []).
Proof.
  intros H Hz. destruct p as [a | err | text | message].
  2:{ rewrite main_argument_error in H. inversion H; subst. discriminate. }
  2:{ rewrite main_help in H. inversion H; subst. left. exists text. auto. }
  2:{ rewrite main_rejected in H. inversion H; subst. discriminate. }
  right. exists a. split; [reflexivity|].
  apply main_cases in H. cbn zeta in H.
  destruct H as [(_ & _ & _ & ->) | [(_ & _ & _ & Hc) | (Hv & Hf & H)]];
    [discriminate | destruct Hc as [(_ & _ & ->) | (_ & -> & _)]; discriminate |].
  destruct H as (tpre & tproc & rp & -> & Hnm & Hc & Hproc & ->).
  destruct rp as [st | e].
  2:{ apply process_runtime_errors in Hproc. destruct e; try contradiction; discriminate. }
  split; [reflexivity|]. split; [exact Hv|]. split; [exact Hf|].
  pose proof (process_no_complaints _ _ _ _ _ _ Hproc) as Hpc.
  pose proof (process_ret_handles _ _ _ _ _ _ Hproc) as Hh.
  apply process_transferred in Hproc.
  destruct Hproc as (mp & tp & _ & _ & _ & Hsink & _).
  repeat split.
  - rewrite complaints_app, Hc, (complaints_no_stderr _ Hpc). reflexivity.
  - rewrite sink_frames_app, (sink_frames_no_media _ Hnm), Hsink. reflexivity.
  - unfold open_handles. rewrite fold_left_app.
    rewrite (track_no_handle _ (no_media_no_handle _ Hnm)). apply Hh.
Qed.

Lemma exit_zero_means_help_or_complete_witness :
  sink_frames (fst (fst Demo.whole)) = [Demo.fr 1; Demo.fr 2; Demo.fr 3]
  /\ open_handles (fst (fst Demo.whole)) = [].
Proof.
  assert (H : main Demo.w (Parsed Demo.args) 0%nat = (fst (fst Demo.whole), 5%nat, Ret tt))
    by (vm_compute; reflexivity).
  destruct (exit_zero_means_help_or_complete Demo.w (Parsed Demo.args) 0%nat _ _ _ H eq_refl)
    as [(text & Hp & _) | (a & Hp & _ & _ & _ & _ & Hs & Hh)]; [discriminate|].
  inversion Hp; subst a. split; [exact Hs | exact Hh].
Defined.

(** ** The quiet flag *)

Lemma emits_iprint_quiet P g l : _quiet g = true -> emits P (iprint g l).
Proof. intros Hq. unfold iprint. rewrite Hq. apply emits_ret. Qed.

Lemma emits_iprint_line P g l : P (Stdout l) -> emits P (iprint g l).
Proof.
  intros HP. unfold iprint. apply emits_if; [apply emits_ret | apply emits_emit, HP].
Qed.

(** One step of the search for the events of a computation; [tac] goes
    first. *)
Ltac emits_by tac :=
  repeat first
    [ tac
    | apply emits_bind; [|intros ?]
    | apply emits_ret
    | apply emits_raise
    | apply emits_truediv
    | apply emits_perf_counter
    | apply emits_getitem
    | apply emits_group0
    | apply emits_first
    | apply emits_assert
    | apply emits_for_each; intros ? ?
    | apply emits_emit; exact I
    | apply emits_iprint_line; exact I
    | apply emits_append_data; exact I
    | apply emits_get_reader; exact I
    | apply emits_get_writer; exact I
    | apply emits_if
    | match goal with
      | |- emits _ (match ?x with _ => _ end) => destruct x
      end ].

Section Quiet.

Variables (w : world) (g : globals).
Hypothesis Hq : _quiet g = true.

Lemma check_inputs_quiet ps : emits not_stdout (check_inputs w g ps).
Proof.
  induction ps as [|p ps IH]; cbn [check_inputs]; unfold eprint.
  - apply emits_ret.
  - emits_by ltac:(first [apply emits_iprint_quiet; exact Hq | exact IH]).
Qed.

Lemma check_files_quiet : emits not_stdout (check_files w g).
Proof.
  unfold check_files, check_output_dir, eprint.
  emits_by ltac:(first [apply emits_iprint_quiet; exact Hq | apply check_inputs_quiet]).
Qed.

Lemma process_quiet : emits not_stdout (process w g).
Proof.
  unfold process, probe, announce, transfer, transfer_file, for_frames,
    transfer_frame, status_block, preview_block, summary, reader_close,
    writer_close.
  emits_by ltac:(apply emits_iprint_quiet; exact Hq).
Qed.

End Quiet.

Lemma main_valid w a n :
  args_valid a = true -> main w (Parsed a) n = checked_run w (globals_of a) n.
Proof.
  intros Hv. unfold main.
  pose proof (parse_arguments_accepts a n) as Hp. rewrite Hv in Hp.
  rewrite (bind_ret_run _ _ _ _ _ _ Hp). fold (checked_run w (globals_of a)).
  destruct (checked_run w (globals_of a) n) as [[t n'] r]. reflexivity.
Qed.

Lemma main_invalid w a n :
  args_valid a = false -> main w (Parsed a) n = ([], n, Exc AssertionError).
Proof.
  intros Hv. unfold main. apply bind_exc_run.
  rewrite parse_arguments_accepts, Hv. reflexivity.
Qed.

Lemma checked_run_quiet w g : _quiet g = true -> emits not_stdout (checked_run w g).
Proof.
  intros Hq. unfold checked_run, sys_exit.
  emits_by ltac:(first [ apply emits_iprint_quiet; exact Hq
                       | apply check_files_quiet; exact Hq
                       | apply process_quiet; exact Hq ]).
Qed.

(** X7. Once [argparse] has returned a namespace with the quiet flag set,
    the program prints no line on the standard output, whatever the outcome
    of the run; complaints go to the error stream as before. (The help of
    [-h] is printed by [argparse] itself, before any flag is looked at.) *)
Theorem quiet_prints_nothing w a n t n' r :
  main w (Parsed a) n = (t, n', r) ->
  Args.quiet a = true ->
  Forall not_stdout t.
Proof.
  intros H Hq. destruct (args_valid a) eqn:Hv.
  - rewrite (main_valid w a n Hv) in H.
    exact (checked_run_quiet w (globals_of a) Hq _ _ _ _ H).
  - rewrite (main_invalid w a n Hv) in H. inversion H. constructor.
Qed.

Lemma quiet_prints_nothing_witness :
  exists t,
    main Demo.w (Parsed More.args_quiet) 0%nat = (t, 5%nat, Ret tt)
    /\ Forall not_stdout t
    /\ sink_frames t = [Demo.fr 1; Demo.fr 2; Demo.fr 3].
Proof.
  eexists.
  assert (H : main Demo.w (Parsed More.args_quiet) 0%nat
              = ([OpenReader "a.mp4"; CloseReader "a.mp4"; PreviewFigure;
                  OpenWriter "out.mp4" (30 # 1)%Q 10 "h264" "yuv420p";
                  OpenReader "a.mp4"; AppendData (Demo.fr 1);
                  Imshow (Demo.fr 1); Suptitle 0 (0 / 30)%Q; Pause;
                  AppendData (Demo.fr 2); CloseReader "a.mp4";
                  OpenReader "b.mp4"; AppendData (Demo.fr 3);
                  Imshow (Demo.fr 3); Suptitle 2 (2 / 30)%Q; Pause;
                  CloseReader "b.mp4"; CloseWriter "out.mp4"], 5%nat, Ret tt))
    by (vm_compute; reflexivity).
  split; [exact H|].
  split; [|reflexivity].
  exact (quiet_prints_nothing Demo.w More.args_quiet 0%nat _ _ _ H eq_refl).
Defined.

(** *** Computations that differ on the standard output only *)

Lemma besides_stdout_app t1 t2 :
  besides_stdout (t1 ++ t2) = besides_stdout t1 ++ besides_stdout t2.
Proof. apply filter_app. Qed.

Lemma sbs_refl {A} (m : M A) : same_besides_stdout m m.
Proof. intros n. auto. Qed.

Lemma sbs_bind {A B} (m1 m2 : M A) (k1 k2 : A -> M B) :
  same_besides_stdout m1 m2 ->
  (forall a, same_besides_stdout (k1 a) (k2 a)) ->
  same_besides_stdout (bind m1 k1) (bind m2 k2).
Proof.
  intros Hm Hk n. unfold bind. specialize (Hm n).
  destruct (m1 n) as [[t1 n1] r1], (m2 n) as [[t2 n2] r2].
  cbn [fst snd] in Hm. destruct Hm as (Ht & Hn & Hr). subst n2 r2.
  destruct r1 as [a|e]; [|cbn [fst snd]; auto].
  specialize (Hk a n1).
  destruct (k1 a n1) as [[u1 m1'] s1], (k2 a n1) as [[u2 m2'] s2].
  cbn [fst snd] in Hk |- *. destruct Hk as (Hu & Hm' & Hs).
  rewrite !besides_stdout_app, Ht, Hu. auto.
Qed.

Lemma sbs_iprint g1 g2 l : same_besides_stdout (iprint g1 l) (iprint g2 l).
Proof.
  intros n. rewrite !iprint_run. cbn [fst snd]. unfold printed.
  destruct (_quiet g1), (_quiet g2); auto.
Qed.

Lemma sbs_if {A} (b : bool) (m1 m2 m1' m2' : M A) :
  same_besides_stdout m1 m1' -> same_besides_stdout m2 m2' ->
  same_besides_stdout (if b then m1 else m2) (if b then m1' else m2').
Proof. destruct b; auto. Qed.

Lemma sbs_for_each {A S} (xs : list A) (b1 b2 : A -> S -> M S) :
  (forall x s, same_besides_stdout (b1 x s) (b2 x s)) ->
  forall s, same_besides_stdout (for_each xs b1 s) (for_each xs b2 s).
Proof.
  intros Hb. induction xs as [|x xs IH]; intros s; cbn [for_each].
  - apply sbs_refl.
  - apply sbs_bind; [apply Hb | exact IH].
Qed.

Ltac sbs_tac :=
  repeat first
    [ apply sbs_iprint
    | apply sbs_bind; [|intros ?]
    | apply sbs_for_each; intros ? ?
    | apply sbs_if
    | match goal with
      | |- same_besides_stdout (match ?x with _ => _ end) (match ?x with _ => _ end) =>
          destruct x
      end
    | apply sbs_refl ].

Section QuietOrNot.

Variables (w : world) (g : globals) (b : bool).

Lemma check_inputs_sbs ps :
  same_besides_stdout (check_inputs w g ps) (check_inputs w (with_quiet b g) ps).
Proof.
  induction ps as [|p ps IH]; cbn [check_inputs]; [apply sbs_refl|].
  apply sbs_bind; [apply sbs_iprint | intros _].
  apply sbs_bind; [apply sbs_refl | intros file].
  repeat (apply sbs_if; [apply sbs_refl|]). exact IH.
Qed.

Lemma check_files_sbs :
  same_besides_stdout (check_files w g) (check_files w (with_quiet b g)).
Proof.
  unfold check_files, check_output_dir. cbn [with_quiet _input_files _output_file _overwrite].
  apply sbs_bind; [apply sbs_iprint | intros _].
  apply sbs_bind; [apply check_inputs_sbs | intros ok].
  sbs_tac.
Qed.

Lemma process_sbs :
  same_besides_stdout (process w g) (process w (with_quiet b g)).
Proof.
  unfold process, probe, announce, transfer, transfer_file, for_frames,
    transfer_frame, status_block, preview_block, summary, status_due, preview_due.
  cbn [with_quiet _input_files _output_file _framerate _status _preview].
  sbs_tac.
Qed.

End QuietOrNot.

(** X8. The quiet flag changes nothing but the lines on the standard output:
    with and without it the program performs the same other events (readers,
    writer, frames, previews, complaints), reads the clock as often and ends
    the same way, a [ZeroDivisionError] in the arguments of a withheld line
    included. *)
Theorem quiet_changes_stdout_only w a b :
  same_besides_stdout (main w (Parsed a)) (main w (Parsed (args_with_quiet b a))).
Proof.
  intros n.
  assert (Hv' : args_valid (args_with_quiet b a) = args_valid a) by reflexivity.
  destruct (args_valid a) eqn:Hv.
  - rewrite (main_valid w a n Hv), (main_valid w _ n Hv').
    change (globals_of (args_with_quiet b a)) with (with_quiet b (globals_of a)).
    revert n. change (same_besides_stdout (checked_run w (globals_of a))
                        (checked_run w (with_quiet b (globals_of a)))).
    unfold checked_run.
    apply sbs_bind; [apply sbs_iprint | intros _].
    apply sbs_bind; [apply sbs_iprint | intros _].
    apply sbs_bind; [apply check_files_sbs | intros ok].
    apply sbs_if; [apply sbs_refl|].
    apply sbs_bind; [apply process_sbs | intros; apply sbs_refl].
  - rewrite (main_invalid w a n Hv), (main_invalid w _ n Hv'). auto.
Qed.

(** ** Status and preview switched off *)

Lemma status_records_not_status t : Forall not_status t -> status_records t = [].
Proof.
  induction 1 as [|e t He _ IH]; [reflexivity|].
  destruct e as [l| | | | | | | | | |]; try exact IH.
  destruct l; try exact IH. contradiction.
Qed.

Section SwitchedOff.

Variables (w : world) (g : globals).

Lemma status_due_off now last :
  truthy_int (_status g) = false -> status_due g now last = false.
Proof.
  unfold status_due. destruct (_status g) as [s|]; [|reflexivity].
  intros ->. reflexivity.
Qed.

Lemma preview_due_off c :
  truthy_int (_preview g) = false -> preview_due g c = false.
Proof.
  unfold preview_due. destruct (_preview g) as [p|]; [|reflexivity].
  intros ->. reflexivity.
Qed.

Lemma process_status_off :
  truthy_int (_status g) = false -> emits not_status (process w g).
Proof.
  intros Hoff.
  assert (Hblock : forall fps now st, emits not_status (status_block g fps now st)).
  { intros. unfold status_block. rewrite (status_due_off _ _ Hoff). apply emits_ret. }
  unfold process, probe, announce, transfer, transfer_file, for_frames,
    transfer_frame, preview_block, summary, reader_close, writer_close.
  emits_by ltac:(apply Hblock).
Qed.

Lemma process_preview_off :
  truthy_int (_preview g) = false -> emits not_preview (process w g).
Proof.
  intros Hoff.
  assert (Hblock : forall fps f st, emits not_preview (preview_block g fps f st)).
  { intros. unfold preview_block. rewrite (preview_due_off _ Hoff). apply emits_ret. }
  unfold process, probe, announce, transfer, transfer_file, for_frames,
    transfer_frame, status_block, summary, reader_close, writer_close.
  rewrite Hoff.
  emits_by ltac:(apply Hblock).
Qed.

End SwitchedOff.

(** X9. Without a status interval, or with the interval 0, [process] prints
    no status line, whatever its outcome. *)
Theorem no_status_without_interval w g n t n' r :
  process w g n = (t, n', r) ->
  _status g = None \/ _status g = Some 0 ->
  status_records t = [].
Proof.
  intros H Hs. apply status_records_not_status.
  apply (process_status_off w g) with (n := n) (n' := n') (r := r); [|exact H].
  destruct Hs as [-> | ->]; reflexivity.
Qed.

Lemma no_status_without_interval_witness :
  status_records (fst (fst (process Demo.w (globals_of More.args_plain) 0%nat))) = [].
Proof.
  eapply (no_status_without_interval Demo.w (globals_of More.args_plain) 0%nat _ 5%nat _).
  - vm_compute. reflexivity.
  - right. reflexivity.
Defined.

(** X10. Without a preview interval, or with the interval 0, [process] never
    touches the preview: no figure, no image, no title, no pause, whatever
    its outcome. *)
Theorem no_preview_without_interval w g n t n' r :
  process w g n = (t, n', r) ->
  _preview g = None \/ _preview g = Some 0 ->
  Forall not_preview t.
Proof.
  intros H Hp.
  apply (process_preview_off w g) with (n := n) (n' := n') (r := r); [|exact H].
  destruct Hp as [-> | ->]; reflexivity.
Qed.

Lemma no_preview_without_interval_witness :
  Forall not_preview (fst (fst (process Demo.w (globals_of More.args_plain) 0%nat))).
Proof.
  eapply (no_preview_without_interval Demo.w (globals_of More.args_plain) 0%nat _ 5%nat _).
  - vm_compute. reflexivity.
  - left. reflexivity.
Defined.

(** ** What has reached the sink, whatever the outcome *)

Lemma sink_frames_not_append t : Forall not_append t -> sink_frames t = [].
Proof.
  induction 1 as [|e t He _ IH]; [reflexivity|].
  destruct e; try contradiction; exact IH.
Qed.

Section Prefix.

Variables (w : world) (g : globals) (framerate : Q).

Lemma transfer_frame_sink f st n t n' r :
  transfer_frame w g framerate f st n = (t, n', r) ->
  sink_frames t = [f] \/ (sink_frames t = [] /\ exists e, r = Exc e).
Proof.
  unfold transfer_frame. intros H. apply bind_inv in H.
  destruct H as [(e & H & ->) | (t1 & n1 & u & t2 & H1 & H & ->)].
  - right. unfold append_data in H. destruct (append_ok w f); inversion H; subst.
    split; [reflexivity | eexists; reflexivity].
  - left. unfold append_data in H1. destruct (append_ok w f); inversion H1; subst.
    rewrite sink_frames_app. cbn [sink_frames flat_map app].
    rewrite sink_frames_not_append; [reflexivity|].
    revert H. unfold status_block, preview_block.
    emits_by fail.
Qed.

Lemma frames_sink fs :
  forall st n t n' r,
    for_each fs (transfer_frame w g framerate) st n = (t, n', r) ->
    exists rest, fs = sink_frames t ++ rest /\ (forall st', r = Ret st' -> rest = []).
Proof.
  induction fs as [|f fs IH]; intros st n t n' r H.
  - inversion H; subst. exists []. auto.
  - cbn [for_each] in H. apply bind_inv in H.
    destruct H as [(e & H & ->) | (t1 & n1 & st1 & t2 & H1 & H & ->)].
    + apply transfer_frame_sink in H. destruct H as [Hs | (Hs & _)]; rewrite Hs.
      * exists fs. split; [reflexivity | discriminate].
      * exists (f :: fs). split; [reflexivity | discriminate].
    + apply transfer_frame_sink in H1.
      destruct H1 as [Hs | (_ & e & He)]; [|discriminate].
      destruct (IH _ _ _ _ _ H) as (rest & Hfs & Hret).
      exists rest. rewrite sink_frames_app, Hs, Hfs at 1. auto.
Qed.

Lemma transfer_file_sink p st n t n' r :
  transfer_file w g framerate p st n = (t, n', r) ->
  exists rest,
    frames_of w p = sink_frames t ++ rest /\ (forall st', r = Ret st' -> rest = []).
Proof.
  unfold transfer_file. intros H. apply bind_inv in H. rewrite iprint_run in H.
  destruct H as [(e & H & _) | (t1 & n1 & u & t2 & H1 & H & ->)]; [discriminate|].
  inversion H1; subst. clear H1.
  rewrite sink_frames_app, sink_frames_printed. cbn [app].
  apply bind_inv in H.
  destruct H as [(e & H & ->) | (t3 & n3 & v & t4 & H3 & H & ->)].
  { unfold get_reader in H. unfold frames_of.
    destruct (get_reader_of w p); inversion H; subst.
    exists []. split; [reflexivity | discriminate]. }
  apply get_reader_ret in H3. destruct H3 as (Hv & -> & ->).
  assert (Hfo : frames_of w p = v_frames v) by (unfold frames_of; rewrite Hv; reflexivity).
  rewrite Hfo, sink_frames_app. cbn [sink_frames flat_map app].
  apply bind_inv in H.
  destruct H as [(e & H & ->) | (t5 & n5 & st1 & t6 & H5 & H & ->)].
  - unfold for_frames in H. apply bind_inv in H.
    destruct H as [(e' & H & _) | (t7 & n7 & st2 & t8 & H7 & H & ->)].
    + destruct (frames_sink _ _ _ _ _ _ H) as (rest & Hfs & _).
      exists rest. split; [exact Hfs | discriminate].
    + destruct (frames_sink _ _ _ _ _ _ H7) as (rest & Hfs & Hret).
      rewrite (Hret st2 eq_refl), app_nil_r in Hfs.
      exists []. rewrite sink_frames_app, app_nil_r.
      destruct (v_truncated v); inversion H; subst; cbn [sink_frames flat_map];
        rewrite app_nil_r; split; [exact Hfs | discriminate].
  - unfold for_frames in H5. apply bind_ret_inv in H5.
    destruct H5 as (t7 & n7 & st2 & t8 & H7 & H5 & ->).
    destruct (frames_sink _ _ _ _ _ _ H7) as (rest & Hfs & Hret).
    rewrite (Hret st2 eq_refl), app_nil_r in Hfs.
    assert (Ht8 : t8 = []) by (destruct (v_truncated v); inversion H5; reflexivity).
    assert (Ht6 : sink_frames t6 = []).
    { apply sink_frames_not_append. revert H. unfold reader_close. emits_by fail. }
    exists []. rewrite !sink_frames_app, Ht8, Ht6. cbn [sink_frames flat_map].
    rewrite !app_nil_r. auto.
Qed.

Lemma files_sink ps :
  forall st n t n' r,
    for_each ps (transfer_file w g framerate) st n = (t, n', r) ->
    exists rest, flat_map (frames_of w) ps = sink_frames t ++ rest.
Proof.
  induction ps as [|p ps IH]; intros st n t n' r H.
  - inversion H; subst. exists []. reflexivity.
  - cbn [for_each flat_map] in H |- *. apply bind_inv in H.
    destruct H as [(e & H & ->) | (t1 & n1 & st1 & t2 & H1 & H & ->)].
    + destruct (transfer_file_sink _ _ _ _ _ _ H) as (rest & Hp & _).
      exists (rest ++ flat_map (frames_of w) ps). rewrite Hp, app_assoc. reflexivity.
    + destruct (transfer_file_sink _ _ _ _ _ _ H1) as (rest & Hp & Hret).
      rewrite (Hret st1 eq_refl), app_nil_r in Hp.
      destruct (IH _ _ _ _ _ H) as (rest' & Hps).
      exists rest'. rewrite sink_frames_app, Hp, Hps, app_assoc. reflexivity.
Qed.

End Prefix.

Lemma process_sink w g n t n' r :
  process w g n = (t, n', r) ->
  exists rest, flat_map (frames_of w) (_input_files g) = sink_frames t ++ rest.
Proof.
  unfold process. intros H.
  assert (Hprobe : emits not_append (probe w g))
    by (unfold probe, reader_close; emits_by fail).
  assert (Hann : forall mp, emits not_append (announce g mp))
    by (intros; unfold announce; emits_by fail).
  assert (Hsum : forall st, emits not_append (summary w g st ;; ret st))
    by (intros; unfold summary; emits_by fail).
  apply bind_inv in H.
  destruct H as [(e & H & _) | (t1 & n1 & mp & t2 & H1 & H & ->)].
  { rewrite (sink_frames_not_append _ (Hprobe _ _ _ _ H)). eexists; reflexivity. }
  rewrite sink_frames_app, (sink_frames_not_append _ (Hprobe _ _ _ _ H1)). cbn [app].
  apply bind_inv in H.
  destruct H as [(e & H & _) | (t3 & n3 & u & t4 & H3 & H & ->)].
  { rewrite (sink_frames_not_append _ (Hann _ _ _ _ _ H)). eexists; reflexivity. }
  rewrite sink_frames_app, (sink_frames_not_append _ (Hann _ _ _ _ _ H3)). cbn [app].
  assert (Htr : forall n0 tt0 m0 r0,
             transfer w g mp n0 = (tt0, m0, r0) ->
             exists rest, flat_map (frames_of w) (_input_files g) = sink_frames tt0 ++ rest).
  { unfold transfer, writer_close. intros n0 tt0 m0 r0 Ht.
    apply bind_inv in Ht.
    destruct Ht as [(e & Ht & _) | (u1 & m1 & start & u2 & Hc & Ht & ->)]; [inversion Ht|].
    inversion Hc; subst. clear Hc. cbn [app].
    apply bind_inv in Ht.
    destruct Ht as [(e & Ht & _) | (u3 & m3 & x & u4 & Hw & Ht & ->)].
    { unfold get_writer in Ht. destruct (writer_opens w (_output_file g)); inversion Ht.
      eexists; reflexivity. }
    apply get_writer_ret in Hw. destruct Hw as (_ & -> & ->).
    rewrite sink_frames_app. cbn [sink_frames flat_map app].
    apply bind_inv in Ht.
    destruct Ht as [(e & Ht & _) | (u5 & m5 & st & u6 & Hl & Ht & ->)].
    { exact (files_sink _ _ _ _ _ _ _ _ _ Ht). }
    destruct (files_sink _ _ _ _ _ _ _ _ _ Hl) as (rest & Hrest).
    exists rest. rewrite sink_frames_app.
    rewrite (sink_frames_not_append u6), app_nil_r; [exact Hrest|].
    revert Ht. emits_by fail. }
  apply bind_inv in H.
  destruct H as [(e & H & _) | (t5 & n5 & st & t6 & H5 & H & ->)].
  { exact (Htr _ _ _ _ H). }
  destruct (Htr _ _ _ _ H5) as (rest & Hrest).
  exists rest. rewrite sink_frames_app, (sink_frames_not_append _ (Hsum _ _ _ _ _ H)).
  rewrite app_nil_r. exact Hrest.
Qed.

(** X12. Whatever the outcome of the program, the frames appended to the
    sink are a prefix of the concatenation of the inputs' frames, in order:
    an aborted run leaves what was written before the error, never a frame
    out of place. *)
Theorem sink_holds_a_prefix w a n t n' r :
  main w (Parsed a) n = (t, n', r) ->
  exists rest, flat_map (frames_of w) (Args.inputs a) = sink_frames t ++ rest.
Proof.
  intros H. apply main_cases in H. cbn zeta in H.
  destruct H as [(_ & -> & _) | [(_ & Hnm & _) | (_ & _ & H)]].
  - eexists; reflexivity.
  - rewrite (sink_frames_no_media _ Hnm). eexists; reflexivity.
  - destruct H as (tpre & tproc & rp & -> & Hnm & _ & Hproc & _).
    rewrite sink_frames_app, (sink_frames_no_media _ Hnm).
    exact (process_sink _ _ _ _ _ _ Hproc).
Qed.

Lemma sink_holds_a_prefix_witness :
  snd More.picky_run = Exc EncodeError
  /\ sink_frames (fst (fst More.picky_run)) = [Demo.fr 1; Demo.fr 2]
  /\ exists rest,
      flat_map (frames_of More.picky) (Args.inputs Demo.args)
      = sink_frames (fst (fst More.picky_run)) ++ rest.
Proof.
  assert (H : main More.picky (Parsed Demo.args) 0%nat
              = (fst (fst More.picky_run), snd (fst More.picky_run), snd More.picky_run))
    by (vm_compute; reflexivity).
  split; [reflexivity|]. split; [reflexivity|].
  exact (sink_holds_a_prefix More.picky Demo.args 0%nat _ _ _ H).
Defined.

(** ** The writer *)

Lemma writer_configs_not_open_writer t : Forall not_open_writer t -> writer_configs t = [].
Proof.
  induction 1 as [|e t He _ IH]; [reflexivity|].
  destruct e; try contradiction; exact IH.
Qed.

Lemma process_writer_once w g n t n' r :
  process w g n = (t, n', r) ->
  (writer_configs t = [] /\ exists e, r = Exc e)
  \/ exists mp,
      writer_configs t = [(_output_file g, mp_framerate mp, OUTPUT_QUALITY,
                           mp_codec mp, mp_pixelformat mp)].
Proof.
  unfold process. intros H.
  assert (Hann : forall mp, emits not_open_writer (announce g mp))
    by (intros; unfold announce; emits_by fail).
  assert (Hsum : forall st, emits not_open_writer (summary w g st ;; ret st))
    by (intros; unfold summary; emits_by fail).
  apply bind_inv in H.
  destruct H as [(e & H & ->) | (t1 & n1 & mp & t2 & H1 & H & ->)].
  { left. rewrite (writer_configs_not_open_writer _ (probe_not_open_writer _ _ _ _ _ _ H)).
    split; [reflexivity | eexists; reflexivity]. }
  rewrite writer_configs_app,
    (writer_configs_not_open_writer _ (probe_not_open_writer _ _ _ _ _ _ H1)). cbn [app].
  apply bind_inv in H.
  destruct H as [(e & H & ->) | (t3 & n3 & u & t4 & H3 & H & ->)].
  { left. rewrite (writer_configs_not_open_writer _ (Hann _ _ _ _ _ H)).
    split; [reflexivity | eexists; reflexivity]. }
  rewrite writer_configs_app, (writer_configs_not_open_writer _ (Hann _ _ _ _ _ H3)).
  cbn [app].
  assert (Htr : forall n0 tt0 m0 r0,
             transfer w g mp n0 = (tt0, m0, r0) ->
             (writer_configs tt0 = [] /\ exists e, r0 = Exc e)
             \/ writer_configs tt0 = [(_output_file g, mp_framerate mp, OUTPUT_QUALITY,
                                       mp_codec mp, mp_pixelformat mp)]).
  { unfold transfer, writer_close. intros n0 tt0 m0 r0 Ht.
    apply bind_inv in Ht.
    destruct Ht as [(e & Ht & _) | (u1 & m1 & start & u2 & Hc & Ht & ->)]; [inversion Ht|].
    inversion Hc; subst. clear Hc. cbn [app].
    apply bind_inv in Ht.
    destruct Ht as [(e & Ht & ->) | (u3 & m3 & x & u4 & Hw & Ht & ->)].
    { left. unfold get_writer in Ht.
      destruct (writer_opens w (_output_file g)); inversion Ht.
      split; [reflexivity | eexists; reflexivity]. }
    right. apply get_writer_ret in Hw. destruct Hw as (_ & -> & ->).
    rewrite writer_configs_app. cbn [writer_configs flat_map app].
    rewrite writer_configs_not_open_writer; [reflexivity|].
    revert Ht. apply emits_bind; [|intros ?; emits_by fail].
    apply emits_for_each. intros. apply transfer_file_not_open_writer. }
  apply bind_inv in H.
  destruct H as [(e & H & ->) | (t5 & n5 & st & t6 & H5 & H & ->)].
  - destruct (Htr _ _ _ _ H) as [(Hw & _) | Hw]; rewrite Hw.
    + left. split; [reflexivity | eexists; reflexivity].
    + right. exists mp. reflexivity.
  - right. exists mp. rewrite writer_configs_app.
    rewrite (writer_configs_not_open_writer _ (Hsum _ _ _ _ _ H)), app_nil_r.
    destruct (Htr _ _ _ _ H5) as [(_ & e & He) | Hw]; [discriminate | exact Hw].
Qed.

(** X13. In every run the writer is opened at most once, for the output path
    of the command line and with quality 10; in a run that ends with status 0
    it is opened exactly once. *)
Theorem writer_opened_once w a n t n' r :
  main w (Parsed a) n = (t, n', r) ->
  (writer_configs t = [] /\ exists e, r = Exc e)
  \/ exists fps c pf, writer_configs t = [(Args.output a, fps, 10, c, pf)].
Proof.
  intros H. apply main_cases in H. cbn zeta in H.
  destruct H as [(_ & -> & _ & ->) | [(_ & Hnm & _ & Hc) | (_ & _ & H)]].
  - left. split; [reflexivity | eexists; reflexivity].
  - left. rewrite (writer_configs_not_open_writer _ (no_media_not_open_writer _ Hnm)).
    split; [reflexivity|].
    destruct Hc as [(_ & _ & ->) | (_ & -> & _)]; eexists; reflexivity.
  - destruct H as (tpre & tproc & rp & -> & Hnm & _ & Hproc & ->).
    rewrite writer_configs_app,
      (writer_configs_not_open_writer _ (no_media_not_open_writer _ Hnm)). cbn [app].
    destruct (process_writer_once _ _ _ _ _ _ Hproc) as [(Hw & e & ->) | (mp & Hw)].
    + left. split; [exact Hw | eexists; reflexivity].
    + right. exists (mp_framerate mp), (mp_codec mp), (mp_pixelformat mp). exact Hw.
Qed.

Lemma writer_opened_once_witness :
  writer_configs (fst (fst Demo.whole)) = [("out.mp4", (30 # 1)%Q, 10, "h264", "yuv420p")]
  /\ ((writer_configs (fst (fst Demo.whole)) = [] /\ exists e, snd Demo.whole = Exc e)
      \/ exists fps c pf,
          writer_configs (fst (fst Demo.whole)) = [(Args.output Demo.args, fps, 10, c, pf)]).
Proof.
  assert (H : main Demo.w (Parsed Demo.args) 0%nat
              = (fst (fst Demo.whole), 5%nat, snd Demo.whole))
    by (vm_compute; reflexivity).
  split; [vm_compute; reflexivity|].
  exact (writer_opened_once Demo.w Demo.args 0%nat _ _ _ H).
Defined.

(** ** The elapsed time *)

Lemma summary_ret_elapsed w g st n t n' u :
  summary w g st n = (t, n', Ret u) ->
  n' = S n /\ Qeq_bool (clock w n - start_time st) 0 = false.
Proof.
  unfold summary. intros H.
  step H Hc. done Hc. step H H1. step H H2. step H H3. step H H4.
  rewrite iprint_run in H. done H. auto.
Qed.

(** X14. [process] returns only if the last reading of the clock differs
    from the first: when no time has elapsed, the quotient of line 173 raises
    [ZeroDivisionError] instead. *)
Theorem process_returns_after_time_elapsed w g n t n' st :
  process w g n = (t, n', Ret st) ->
  ~ (clock w (pred n') == clock w n)%Q.
Proof.
  unfold process. intros H.
  stepv H Hp mp tp. apply probe_ret in Hp.
  destruct Hp as (_ & _ & _ & _ & _ & _ & _ & _ & _ & _ & _ & _ & ->).
  step H Ha. rewrite announce_run in Ha. done Ha.
  stepv H Ht st1 tt1. apply transfer_ret in Ht. destruct Ht as (tloop & Hl & ->).
  apply files_ret with (c := 0%nat) in Hl; [|reflexivity].
  destruct Hl as ((_ & Hs & _) & _ & _). cbn [start_time] in Hs.
  step H Hsum. apply summary_ret_elapsed in Hsum. destruct Hsum as (-> & Hz).
  done H. cbn [pred]. rewrite Hs in Hz.
  intros Heq. apply Qeq_bool_neq in Hz. apply Hz. rewrite Heq. ring.
Qed.

Lemma process_returns_after_time_elapsed_witness :
  ~ (clock Demo.w 4 == clock Demo.w 0)%Q.
Proof.
  assert (H : process Demo.w Demo.g 0%nat = (Demo.trace, 5%nat, Ret Demo.final))
    by (vm_compute; reflexivity).
  exact (process_returns_after_time_elapsed Demo.w Demo.g 0%nat Demo.trace 5%nat Demo.final H).
Defined.

(** ** The pixel-format token *)

Lemma leading_alnum_run_all s : all_alnum (leading_alnum_run s) = true.
Proof.
  unfold all_alnum. induction s as [|c s IH]; [reflexivity|].
  cbn [leading_alnum_run]. destruct (is_alnum c) eqn:Hc; [|reflexivity].
  cbn [list_ascii_of_string forallb]. rewrite Hc. exact IH.
Qed.

Lemma leading_alnum_run_prefix s :
  exists rest, s = (leading_alnum_run s ++ rest)%string /\ begins_alnum rest = false.
Proof.
  induction s as [|c s (rest & IH & Hrest)].
  - exists EmptyString. auto.
  - cbn [leading_alnum_run]. destruct (is_alnum c) eqn:Hc.
    + exists rest. cbn [String.append]. rewrite <- IH. auto.
    + exists (String c s). cbn [String.append begins_alnum]. auto.
Qed.

Lemma leading_alnum_run_idem s :
  leading_alnum_run (leading_alnum_run s) = leading_alnum_run s.
Proof.
  induction s as [|c s IH]; [reflexivity|].
  cbn [leading_alnum_run]. destruct (is_alnum c) eqn:Hc; [|reflexivity].
  cbn [leading_alnum_run]. rewrite Hc, IH. reflexivity.
Qed.

(** X15. When the search of line 124 finds a token, the token is not empty,
    consists of ASCII letters and digits only, and is a prefix of the raw
    string that stops at the end or before a character that is neither;
    searching the token again gives the token back. *)
Theorem pixel_format_token_shape raw pf :
  Re.search pix_fmt_pattern raw = Some pf ->
  pf <> EmptyString
  /\ all_alnum pf = true
  /\ (exists rest, raw = (pf ++ rest)%string /\ begins_alnum rest = false)
  /\ Re.search pix_fmt_pattern pf = Some pf.
Proof.
  intros H. destruct (begins_alnum raw) eqn:Hb.
  - rewrite (search_alnum raw Hb) in H. inversion H; subst pf. clear H.
    assert (Hne : begins_alnum (leading_alnum_run raw) = true).
    { destruct raw as [|c s]; [discriminate|]. cbn [begins_alnum] in Hb.
      cbn [leading_alnum_run]. rewrite Hb. exact Hb. }
    repeat split.
    + intros He. rewrite He in Hne. discriminate.
    + apply leading_alnum_run_all.
    + apply leading_alnum_run_prefix.
    + rewrite (search_alnum _ Hne), leading_alnum_run_idem. reflexivity.
  - rewrite (search_not_alnum raw Hb) in H. discriminate.
Qed.

Lemma pixel_format_token_shape_witness :
  "yuv420p" <> EmptyString
  /\ all_alnum "yuv420p" = true
  /\ (exists rest, "yuv420p(tv)" = ("yuv420p" ++ rest)%string /\ begins_alnum rest = false)
  /\ Re.search pix_fmt_pattern "yuv420p" = Some "yuv420p".
Proof.
  exact (pixel_format_token_shape "yuv420p(tv)" "yuv420p" eq_refl).
Defined.

(** ** The order of opening, appending and closing *)

Lemma media_after_app s t1 t2 :
  media_after s (t1 ++ t2)
  = match media_after s t1 with
    | Some s1 => media_after s1 t2
    | None => None
    end.
Proof.
  revert s. induction t1 as [|e t1 IH]; intros s; [reflexivity|].
  cbn [app media_after]. destruct (media_step s e); [apply IH | reflexivity].
Qed.

Lemma media_after_no_media s t : Forall no_media t -> media_after s t = Some s.
Proof.
  induction 1 as [|e t He _ IH]; [reflexivity|].
  cbn [media_after]. destruct e; try contradiction; destruct s as [[q|] [| |]]; exact IH.
Qed.

Lemma keeps_media_ret {A} s (a : A) : keeps_media s s (ret a).
Proof. intros n t n' r H. inversion H; subst. reflexivity. Qed.

Lemma keeps_media_raise {A} s s' e : keeps_media s s' (@raise A e).
Proof. intros n t n' r H. inversion H; subst. discriminate. Qed.

Lemma keeps_media_emit s s' e : media_step s e = Some s' -> keeps_media s s' (emit e).
Proof. intros Hs n t n' r H. inversion H; subst. cbn [media_after]. rewrite Hs. reflexivity. Qed.

Lemma keeps_media_bind {A B} s s1 s2 (m : M A) (k : A -> M B) :
  keeps_media s s1 m -> (forall a, keeps_media s1 s2 (k a)) ->
  keeps_media s s2 (bind m k).
Proof.
  intros Hm Hk n t n' r H. apply bind_inv in H.
  destruct H as [(e & H & ->) | (t1 & n1 & a & t2 & H1 & H & ->)].
  - exact (Hm _ _ _ _ H).
  - rewrite media_after_app. rewrite (Hm _ _ _ _ H1). exact (Hk _ _ _ _ _ H).
Qed.

Lemma keeps_media_quiet {A} s (m : M A) : emits no_media m -> keeps_media s s m.
Proof.
  intros Hm n t n' r H. rewrite (media_after_no_media s t (Hm _ _ _ _ H)).
  destruct r; [reflexivity | discriminate].
Qed.

Lemma keeps_media_if {A} s s' (b : bool) (m1 m2 : M A) :
  keeps_media s s' m1 -> keeps_media s s' m2 -> keeps_media s s' (if b then m1 else m2).
Proof. destruct b; auto. Qed.

Lemma keeps_media_for_each {A S} s (xs : list A) (body : A -> S -> M S) :
  (forall x st, keeps_media s s (body x st)) ->
  forall st, keeps_media s s (for_each xs body st).
Proof.
  intros Hb. induction xs as [|x xs IH]; intros st; cbn [for_each].
  - apply keeps_media_ret.
  - eapply keeps_media_bind; [apply Hb | exact IH].
Qed.

Section Protocol.

Variables (w : world) (g : globals).

Lemma transfer_frame_keeps fps p f st :
  keeps_media (Some p, Opened) (Some p, Opened) (transfer_frame w g fps f st).
Proof.
  unfold transfer_frame.
  eapply keeps_media_bind.
  { unfold append_data. apply keeps_media_if;
      [apply keeps_media_emit; reflexivity | apply keeps_media_raise]. }
  intros _. apply keeps_media_quiet.
  unfold status_block, preview_block. emits_by fail.
Qed.

Lemma transfer_file_keeps fps p st :
  keeps_media (None, Opened) (None, Opened) (transfer_file w g fps p st).
Proof.
  unfold transfer_file.
  eapply keeps_media_bind; [apply keeps_media_quiet; emits_by fail | intros _].
  eapply (keeps_media_bind _ (Some p, Opened)).
  { unfold get_reader. destruct (get_reader_of w p); [|apply keeps_media_raise].
    eapply keeps_media_bind; [apply keeps_media_emit; reflexivity | intros _].
    apply keeps_media_ret. }
  intros v. eapply (keeps_media_bind _ (Some p, Opened)).
  { unfold for_frames. eapply keeps_media_bind.
    - apply keeps_media_for_each. intros. apply transfer_frame_keeps.
    - intros st1. apply keeps_media_if; [apply keeps_media_raise | apply keeps_media_ret]. }
  intros st1. unfold reader_close.
  eapply keeps_media_bind; [|intros _; apply keeps_media_ret].
  apply keeps_media_emit. cbn [media_step]. rewrite String.eqb_refl. reflexivity.
Qed.

Lemma probe_keeps : keeps_media (None, NotOpened) (None, NotOpened) (probe w g).
Proof.
  unfold probe.
  eapply keeps_media_bind; [apply keeps_media_quiet, emits_first | intros input0].
  eapply (keeps_media_bind _ (Some input0, NotOpened)).
  { unfold get_reader. destruct (get_reader_of w input0); [|apply keeps_media_raise].
    eapply keeps_media_bind; [apply keeps_media_emit; reflexivity | intros _].
    apply keeps_media_ret. }
  intros v.
  eapply keeps_media_bind; [apply keeps_media_quiet, emits_getitem | intros size].
  eapply keeps_media_bind; [apply keeps_media_quiet; emits_by fail | intros fps].
  eapply keeps_media_bind; [apply keeps_media_quiet, emits_getitem | intros raw].
  eapply keeps_media_bind; [apply keeps_media_quiet, emits_group0 | intros pf].
  eapply keeps_media_bind; [apply keeps_media_quiet, emits_getitem | intros codec].
  unfold reader_close.
  eapply keeps_media_bind; [|intros _; apply keeps_media_ret].
  apply keeps_media_emit. cbn [media_step]. rewrite String.eqb_refl. reflexivity.
Qed.

Lemma transfer_keeps mp : keeps_media (None, NotOpened) (None, Closed) (transfer w g mp).
Proof.
  unfold transfer.
  eapply keeps_media_bind; [apply keeps_media_quiet, emits_perf_counter | intros start].
  eapply (keeps_media_bind _ (None, Opened)).
  { unfold get_writer. apply keeps_media_if;
      [apply keeps_media_emit; reflexivity | apply keeps_media_raise]. }
  intros _.
  eapply keeps_media_bind.
  { apply keeps_media_for_each. intros. apply transfer_file_keeps. }
  intros st.
  eapply keeps_media_bind; [apply keeps_media_quiet; emits_by fail | intros _].
  unfold writer_close.
  eapply keeps_media_bind; [|intros _; apply keeps_media_ret].
  apply keeps_media_emit. reflexivity.
Qed.

Lemma process_keeps : keeps_media (None, NotOpened) (None, Closed) (process w g).
Proof.
  unfold process.
  eapply keeps_media_bind; [apply probe_keeps | intros mp].
  eapply keeps_media_bind;
    [apply keeps_media_quiet; unfold announce; emits_by fail | intros _].
  eapply keeps_media_bind; [apply transfer_keeps | intros st].
  apply keeps_media_quiet. unfold summary. emits_by fail.
Qed.

End Protocol.

(** X16. Whatever the outcome of the program, its events keep this order: a
    reader is opened only when no other reader is open, and the reader closed
    is the open one; the writer is opened at most once, when no reader is
    open, and is not opened again after it has been closed; a frame is
    appended only while the writer and a reader are open; the writer is
    closed when no reader is open. When [main] returns, no reader is open and
    the writer has been opened and closed. *)
Theorem media_events_in_order w a n t n' r :
  main w (Parsed a) n = (t, n', r) ->
  match r with
  | Ret _ => media_after (None, NotOpened) t = Some (None, Closed)
  | Exc _ => media_after (None, NotOpened) t <> None
  end.
Proof.
  intros H. apply main_cases in H. cbn zeta in H.
  destruct H as [(_ & -> & _ & ->) | [(_ & Hnm & _ & Hc) | (_ & _ & H)]].
  - discriminate.
  - rewrite (media_after_no_media _ _ Hnm).
    destruct Hc as [(_ & _ & ->) | (_ & -> & _)]; discriminate.
  - destruct H as (tpre & tproc & rp & -> & Hnm & _ & Hproc & ->).
    rewrite media_after_app, (media_after_no_media _ _ Hnm).
    pose proof (process_keeps _ _ _ _ _ _ Hproc) as Hk.
    destruct rp; exact Hk.
Qed.

Lemma media_events_in_order_witness :
  media_after (None, NotOpened) (fst (fst Demo.whole)) = Some (None, Closed)
  /\ media_after (None, NotOpened) (fst (fst More.picky_run)) = Some (Some "b.mp4", Opened).
Proof.
  assert (H : main Demo.w (Parsed Demo.args) 0%nat = (fst (fst Demo.whole), 5%nat, Ret tt))
    by (vm_compute; reflexivity).
  split; [|vm_compute; reflexivity].
  exact (media_events_in_order Demo.w Demo.args 0%nat _ _ _ H).
Defined.

(** ** Only the first input is probed *)

Lemma bind_ext {A B} (m1 m2 : M A) (k1 k2 : A -> M B) n :
  m1 n = m2 n -> (forall a n1, k1 a n1 = k2 a n1) -> bind m1 k1 n = bind m2 k2 n.
Proof.
  intros Hm Hk. unfold bind. rewrite Hm.
  destruct (m2 n) as [[t1 n1] [a|e]]; [rewrite Hk|]; reflexivity.
Qed.

Lemma for_each_ext {A S} (xs : list A) (b1 b2 : A -> S -> M S) :
  (forall x s n, b1 x s n = b2 x s n) ->
  forall s n, for_each xs b1 s n = for_each xs b2 s n.
Proof.
  intros Hb. induction xs as [|x xs IH]; intros s n; [reflexivity|].
  cbn [for_each]. apply bind_ext; [apply Hb | exact IH].
Qed.

Section SameStreams.

Variables (w1 w2 : world) (g : globals) (input0 : string).
Hypothesis Hsame : same_streams input0 w1 w2.

Lemma transfer_frame_same fps f st n :
  transfer_frame w1 g fps f st n = transfer_frame w2 g fps f st n.
Proof.
  destruct Hsame as (_ & _ & _ & Happ & Hclock).
  unfold transfer_frame. apply bind_ext.
  - unfold append_data. rewrite Happ. reflexivity.
  - intros _ n1. apply bind_ext; [|reflexivity].
    unfold perf_counter. rewrite Hclock. reflexivity.
Qed.

Lemma transfer_file_same fps p st n :
  transfer_file w1 g fps p st n = transfer_file w2 g fps p st n.
Proof.
  destruct Hsame as (_ & Hrel & _).
  unfold transfer_file. apply bind_ext; [reflexivity|]. intros _ n1.
  unfold get_reader. specialize (Hrel p).
  destruct (get_reader_of w1 p) as [v1|], (get_reader_of w2 p) as [v2|];
    try contradiction; [|reflexivity].
  destruct Hrel as (Hf & Ht).
  assert (Hk : forall m,
             (st' <- for_frames v1 (transfer_frame w1 g fps) st ;;
              reader_close p ;; ret st') m
             = (st' <- for_frames v2 (transfer_frame w2 g fps) st ;;
                reader_close p ;; ret st') m).
  { intros m. apply bind_ext; [|reflexivity].
    unfold for_frames. rewrite Hf, Ht. apply bind_ext; [|reflexivity].
    apply for_each_ext. intros. apply transfer_frame_same. }
  assert (E1 : (emit (OpenReader p) ;; ret v1) n1 = ([OpenReader p], n1, Ret v1))
    by reflexivity.
  assert (E2 : (emit (OpenReader p) ;; ret v2) n1 = ([OpenReader p], n1, Ret v2))
    by reflexivity.
  rewrite (bind_ret_run _ _ _ _ _ _ E1), (bind_ret_run _ _ _ _ _ _ E2), Hk.
  reflexivity.
Qed.

Lemma process_same rest n :
  _input_files g = input0 :: rest -> process w1 g n = process w2 g n.
Proof.
  intros Hi. destruct Hsame as (H0 & _ & Hwr & _ & Hclock).
  unfold process. apply bind_ext.
  { unfold probe. rewrite Hi. cbn [first]. rewrite !bind_ret_left.
    unfold get_reader. rewrite H0. reflexivity. }
  intros mp n1. apply bind_ext; [reflexivity|]. intros _ n2.
  apply bind_ext.
  - unfold transfer. apply bind_ext; [unfold perf_counter; rewrite Hclock; reflexivity|].
    intros start n3. apply bind_ext; [unfold get_writer; rewrite Hwr; reflexivity|].
    intros _ n4. apply bind_ext; [|reflexivity].
    apply for_each_ext. intros. apply transfer_file_same.
  - intros st n3. apply bind_ext; [|reflexivity].
    unfold summary. apply bind_ext; [unfold perf_counter; rewrite Hclock|]; reflexivity.
Qed.

End SameStreams.

(** X17. Only the first input is probed: the metadata of the other inputs
    (size, framerate, pixel format, codec) is never looked at. Two worlds
    that agree on the first input, on the frames of every input and on the
    encoder and the clock give the same run of [process], event for event. *)
Theorem later_metadata_is_ignored w1 w2 g input0 rest n :
  _input_files g = input0 :: rest ->
  same_streams input0 w1 w2 ->
  process w1 g n = process w2 g n.
Proof. intros Hi Hs. exact (process_same w1 w2 g input0 Hs rest n Hi). Qed.

Lemma later_metadata_is_ignored_witness :
  process Demo.w Demo.g 0%nat = process More.mixed Demo.g 0%nat.
Proof.
  apply (later_metadata_is_ignored Demo.w More.mixed Demo.g "a.mp4" ["b.mp4"] 0%nat eq_refl).
  split; [reflexivity|]. split; [|repeat split].
  intros p. unfold More.mixed. cbn [get_reader_of].
  destruct (String.eqb p "b.mp4") eqn:Hb.
  - apply String.eqb_eq in Hb. subst p. cbn. auto.
  - unfold Demo.w. cbn [get_reader_of]. rewrite Hb.
    destruct (String.eqb p "a.mp4"); auto.
Defined.

(** ** Which input is complained about *)

Lemma check_inputs_first_bad w g ps p n :
  find (bad_input w) ps = Some p ->
  (forall q, In q ps -> stat_fails w q = false) ->
  exists t,
    check_inputs w g ps n = (t, n, Ret false)
    /\ complaints t = [if is_file w p then InputUnreadable p else InputMissing p].
Proof.
  induction ps as [|q ps IH]; [discriminate|].
  cbn [find check_inputs]. unfold bad_input at 1. intros Hfind Hstat.
  rewrite (bind_ret_run _ _ _ _ _ _ (iprint_run g _ n)).
  assert (E : Path_is_file w q n = ([], n, Ret (is_file w q)))
    by (rewrite Path_is_file_run, (Hstat q (or_introl eq_refl)); reflexivity).
  rewrite (bind_ret_run _ _ _ _ _ _ E). cbn [app].
  destruct (is_file w q) eqn:Hf; cbn [negb andb] in Hfind |- *.
  - destruct (access_r w q) eqn:Hr; cbn [negb] in Hfind |- *.
    + destruct (IH Hfind (fun q' Hq' => Hstat q' (or_intror Hq'))) as (t' & Hrun & Hc).
      rewrite Hrun. eexists. split; [reflexivity|].
      rewrite complaints_app, complaints_printed. exact Hc.
    + inversion Hfind; subst q. rewrite Hf.
      eexists. split; [reflexivity|]. cbn [app].
      rewrite complaints_app, complaints_printed. reflexivity.
  - inversion Hfind; subst q. rewrite Hf.
    eexists. split; [reflexivity|]. cbn [app].
    rewrite complaints_app, complaints_printed. reflexivity.
Qed.

(** X18. When an input is missing or unreadable and [Path.is_file()] raises
    on none of the inputs, [check_files] returns [False] with one complaint,
    about the first such input in the order of the command line: a path that
    is not a file is reported as missing, a file that cannot be read as
    unreadable. The output path is not looked at: nothing is assumed of
    it, not even that [stat] succeeds on it. *)
Theorem first_bad_input_is_reported w g p n :
  find (bad_input w) (_input_files g) = Some p ->
  (forall q, In q (_input_files g) -> stat_fails w q = false) ->
  exists t,
    check_files w g n = (t, n, Ret false)
    /\ complaints t = [if is_file w p then InputUnreadable p else InputMissing p].
Proof.
  intros Hfind Hstat.
  destruct (check_inputs_first_bad w g _ p n Hfind Hstat) as (ti & Hrun & Hc).
  unfold check_files.
  rewrite (bind_ret_run _ _ _ _ _ _ (iprint_run g _ n)).
  rewrite (bind_ret_run _ _ _ _ _ _ Hrun). cbn [negb].
  eexists. split; [reflexivity|]. cbn [app]. rewrite app_nil_r.
  rewrite complaints_app, complaints_printed. exact Hc.
Qed.

Lemma first_bad_input_is_reported_witness :
  exists t,
    check_files Demo.w (globals_of More.args_missing) 0%nat = (t, 0%nat, Ret false)
    /\ complaints t = [InputMissing "c.mp4"].
Proof.
  exact (first_bad_input_is_reported Demo.w (globals_of More.args_missing) "c.mp4" 0%nat
           eq_refl (fun q _ => eq_refl)).
Defined.

(** ** The parameters of the writer, the token, and the handles *)




(** C7, as the code has it. When [process] returns, no reader and no writer
    is left open, and the events kept the order of [media_step]: every
    reader was closed before the next one was opened (a reader opened while
    another is open does not fit), frames were appended only while a reader
    and the writer were open, and the writer, opened once, was closed after
    the last reader. When a decode or encode error leaves [process] while
    streaming, nothing closes them: the reader of the input being read and
    the writer are still open. *)
Theorem handles_closed_on_return_only w g n t n' r :
  process w g n = (t, n', r) ->
  match r with
  | Ret _ =>
      open_handles t = []
      /\ media_after (None, NotOpened) t = Some (None, Closed)
  | Exc e =>
      mid_stream e ->
      exists p, In p (_input_files g)
                /\ open_handles t = [HReader p; HWriter (_output_file g)]
  end.
Proof.
  intros H. destruct r as [st|e].
  - split; [|exact (process_keeps w g _ _ _ _ H)].
    apply process_ret in H.
    destruct H as (mp & tp & tloop & nl & Hp & Hl & -> & ->).
    apply probe_ret in Hp.
    destruct Hp as (input0 & rest & v & raw & _ & _ & _ & _ & _ & _ & _ & -> & _).
    apply files_ret with (c := 0%nat) in Hl; [|reflexivity].
    destruct Hl as (_ & Hbal & _).
    unfold open_handles. rewrite !fold_left_app.
    rewrite (track_no_handle _ (no_handle_printed g _)).
    cbn [fold_left track]. rewrite release_head.
    rewrite (track_no_handle (printed g (parameter_lines mp))
                             (no_handle_printed g _)).
    assert (Hfig : forall hs,
               fold_left track (if truthy_int (_preview g) then [PreviewFigure] else []) hs = hs)
      by (intros; destruct (truthy_int (_preview g)); reflexivity).
    rewrite Hfig. cbn [fold_left track]. rewrite Hbal.
    rewrite (track_no_handle _ (no_handle_printed g _)).
    cbn [fold_left track]. apply release_head.
  - intros He. unfold process in H.
    apply bind_exc_inv in H. destruct H as [H | (tp & n1 & mp & t2 & Hp & H & ->)].
    { apply probe_not_mid_stream in H. destruct e; contradiction. }
    apply probe_ret in Hp.
    destruct Hp as (input0 & rest & v & raw & _ & _ & _ & _ & _ & _ & _ & -> & ->).
    apply bind_exc_inv in H. destruct H as [H | (ta & n3 & u & t4 & Ha & H & ->)].
    { apply announce_not_mid_stream in H. destruct e; contradiction. }
    apply announce_no_handle in Ha.
    apply bind_exc_inv in H. destruct H as [H | (tt1 & n5 & st & t6 & Ht & H & ->)].
    + apply transfer_abort in H; [|exact He]. destruct H as (p & Hin & Hopen).
      exists p. split; [exact Hin|].
      unfold open_handles. rewrite !fold_left_app. cbn [fold_left track].
      rewrite release_head, (track_no_handle _ Ha). apply Hopen.
    + exfalso. apply bind_exc_inv in H.
      destruct H as [H | (? & ? & ? & ? & _ & H & _)]; [|inversion H].
      apply summary_not_mid_stream in H. destruct e; contradiction.
Qed.

Lemma handles_closed_on_return_only_witness :
  open_handles Demo.trace = []
  /\ media_after (None, NotOpened) Demo.trace = Some (None, Closed).
Proof.
  assert (H : process Demo.w Demo.g 0%nat = (Demo.trace, 5%nat, Ret Demo.final))
    by (vm_compute; reflexivity).
  exact (handles_closed_on_return_only Demo.w Demo.g 0%nat Demo.trace 5%nat _ H).
Defined.

(** C7 as stated fails: an input that breaks off after its first frame aborts
    the run with its reader and the writer still open. *)
Lemma abort_leaves_handles_open :
  exists t n',
    process Demo.broken Demo.g 0%nat = (t, n', Exc DecodeError)
    /\ open_handles t = [HReader "a.mp4"; HWriter "out.mp4"]
    /\ ~ In (CloseWriter "out.mp4") t.
Proof.
  exists (fst (fst Demo.broken_run)), 2%nat.
  split; [vm_compute; reflexivity|].
  split; [vm_compute; reflexivity|].
  vm_compute. intros H.
  repeat (destruct H as [H|H]; [discriminate H|]). exact H.
Qed.

(** *** A run that reaches the writer *)

Section OpensWriter.

Variables (w : world) (g : globals).
Hypothesis Hopens : writer_opens w (_output_file g) = true.



End OpensWriter.



